(** * tds-svc-agent: the WebSocket agent, embedded and verified

    A shallow embedding of the service health agent (the WebSocket edition
    and, where they differ, the HTTP edition in [svc-agent.js]): the
    configuration, the timing parameters, the connection manager, the
    identifier slug, the three enumerators and the snapshot, the system
    identity resolver and the remote installer command.

    Conventions.
    - JavaScript numbers that come from the configuration are rationals
      ([Q]): comparison, [Math.max], [Math.min], multiplication by a power
      of two and [Math.floor] are exact on them in the range of interest.
      The product of seconds by 1000 is not: it is rounded to the nearest
      double, as [Double.mul] does it.  A missing key ([undefined]) is
      [None].
    - Clock readings ([Date.now()]) are integers ([Z]).
    - Strings are Rocq strings, that is sequences of 8-bit code units.
    - What the agent reads from the outside (command output, the file
      system, the clock, the random source, socket events) is an explicit
      input of the function or an event of the step function. *)

From Stdlib Require Import ZArith QArith Qround Qminmax Qabs Qpower Lqa Lia.
From Stdlib Require Import Ascii String List Sorted Permutation OrderedTypeEx.
From stdpp Require Import gmap strings list pretty.

Local Open Scope string_scope.
Local Open Scope list_scope.

(** ** JavaScript built-ins used by the agent *)

Module JS.

(** [x || d] on a number: [undefined] and [0] are falsy. *)
Definition num_or (x : option Q) (d : Q) : Q :=
  match x with
  | None => d
  | Some q => if Qeq_bool q 0 then d else q
  end.

(** [Math.floor], as a number again. *)
Definition Math_floor (x : Q) : Q := inject_Z (Qfloor x).

(** [Math.pow(2, n)] for a counter [n]. *)
Definition pow2 (n : nat) : Q := inject_Z (2 ^ Z.of_nat n).

(** *** Strings *)

Definition code (c : ascii) : N := N_of_ascii c.

Definition between (lo hi : N) (c : ascii) : bool :=
  ((lo <=? code c) && (code c <=? hi))%N.

Definition LF : string := String "010" "".

(** A truthy string is a non-empty one. *)
Definition truthy (s : string) : bool := negb (String.eqb s "").

(** [x || d] on a string that may be [undefined]. *)
Definition str_or (x : option string) (d : string) : string :=
  match x with
  | Some v => if truthy v then v else d
  | None => d
  end.

(** A template literal prints [undefined] by name. *)
Definition template (x : option string) : string :=
  match x with Some v => v | None => "undefined" end.

Fixpoint map_chars (f : ascii -> ascii) (s : string) : string :=
  match s with
  | EmptyString => EmptyString
  | String c r => String (f c) (map_chars f r)
  end.

(** [toLowerCase] on one code unit: A-Z, and the capital letters of the
    Latin-1 block (all but the multiplication sign). *)
Definition lower_char (c : ascii) : ascii :=
  if between 65 90 c
     || (between 192 222 c && negb (code c =? 215)%N)
  then ascii_of_N (code c + 32)
  else c.

Definition toLowerCase (s : string) : string := map_chars lower_char s.

(** White space and line terminators, as [trim] and [\s] see them. *)
Definition is_space (c : ascii) : bool :=
  between 9 13 c || (code c =? 32)%N || (code c =? 160)%N.

Definition is_digit (c : ascii) : bool := between 48 57 c.

Fixpoint trimStart (s : string) : string :=
  match s with
  | String c r => if is_space c then trimStart r else s
  | EmptyString => EmptyString
  end.

Fixpoint trimEnd (s : string) : string :=
  match s with
  | EmptyString => EmptyString
  | String c r =>
      match trimEnd r with
      | EmptyString => if is_space c then EmptyString else String c EmptyString
      | r' => String c r'
      end
  end.

Definition trim (s : string) : string := trimEnd (trimStart s).

(** [s.split(sep)] for a non-empty separator: [skip] counts the code
    units of a separator still to be passed over, [piece] is the piece
    being collected. *)
Fixpoint split_from (sep : string) (skip : nat) (piece : string)
    (s : string) : list string :=
  match s with
  | EmptyString => [piece]
  | String c r =>
      match skip with
      | S k => split_from sep k piece r
      | O =>
          if String.prefix sep s
          then piece :: split_from sep (String.length sep - 1) "" r
          else split_from sep 0 (piece +:+ String c "") r
      end
  end.

Definition split (sep : string) (s : string) : list string :=
  split_from sep 0 "" s.

(** [s.split(/\s+/)]. *)
Fixpoint split_spaces_from (in_run : bool) (piece : string) (s : string)
    : list string :=
  match s with
  | EmptyString => [piece]
  | String c r =>
      if is_space c then
        if in_run then split_spaces_from true piece r
        else piece :: split_spaces_from true "" r
      else split_spaces_from false (piece +:+ String c "") r
  end.

Definition split_spaces (s : string) : list string :=
  split_spaces_from false "" s.

(** [s.indexOf(c)] for a one-character needle; [None] is [-1]. *)
Fixpoint indexOf (needle : ascii) (s : string) : option nat :=
  match s with
  | EmptyString => None
  | String c r =>
      if Ascii.eqb c needle then Some 0%nat
      else option_map S (indexOf needle r)
  end.

(** [s.slice(0, n)] and [s.slice(n)] for [0 <= n]. *)
Definition slice_to (n : nat) (s : string) : string := substring 0 n s.

Definition slice_from (n : nat) (s : string) : string :=
  substring n (String.length s - n) s.

(** [s.slice(-n)]: the last [n] code units. *)
Definition slice_last (n : nat) (s : string) : string :=
  slice_from (String.length s - n) s.

Definition endsWith (suffix s : string) : bool :=
  (String.length suffix <=? String.length s)%nat
  && String.eqb (slice_last (String.length suffix) s) suffix.

(** [list.includes(x)]. *)
Definition includes (l : list string) (x : string) : bool :=
  bool_decide (x ∈ l).

Fixpoint all_chars (p : ascii -> bool) (s : string) : bool :=
  match s with
  | EmptyString => true
  | String c r => p c && all_chars p r
  end.

(** [/^\d+$/.test(s)]. *)
Definition test_digits (s : string) : bool := truthy s && all_chars is_digit s.

(** [/Up\s/i.test(s)]. *)
Fixpoint test_Up_space (s : string) : bool :=
  match s with
  | String u ((String p (String w _)) as r) =>
      ((code (lower_char u) =? 117)%N && (code (lower_char p) =? 112)%N
       && is_space w)
      || test_Up_space r
  | _ => false
  end.

(** [l.join(sep)]. *)
Fixpoint join (sep : string) (l : list string) : string :=
  match l with
  | [] => ""
  | [x] => x
  | x :: r => x +:+ sep +:+ join sep r
  end.

(** [array.sort(compare)]: the sort is stable; insertion keeps an
    element before the later ones it compares equal to. *)
Section Sort.
Context {A : Type} (compare : A -> A -> Z).

Fixpoint sort_insert (x : A) (l : list A) : list A :=
  match l with
  | [] => [x]
  | y :: r => if (compare x y <=? 0)%Z then x :: l
              else y :: sort_insert x r
  end.

Fixpoint sort (l : list A) : list A :=
  match l with
  | [] => []
  | x :: r => sort_insert x (sort r)
  end.
End Sort.

(** Comparison by code units, as the default [sort()] and the relational
    operators on strings do it: negative, zero or positive. *)
Definition compare_code_units (a b : string) : Z :=
  match String.compare a b with
  | Lt => (-1)%Z
  | Eq => 0%Z
  | Gt => 1%Z
  end.

End JS.

(** ** Floating point

    The numbers of the runtime are IEEE 754 doubles: 53 significant bits,
    results rounded to the nearest double, ties to the even one.  A double
    is represented by the rational it denotes; a result beyond
    [max_value] stands for [Infinity]. *)

Module Double.

(** The nearest integer, the even one of the two when half way. *)
Definition nearest_even (q : Q) : Z :=
  let f := Qfloor q in
  match (q - inject_Z f ?= 1 # 2)%Q with
  | Lt => f
  | Gt => (f + 1)%Z
  | Eq => if Z.even f then f else (f + 1)%Z
  end.

(** [2^e] for an integer exponent of either sign. *)
Definition exp2 (e : Z) : Q := (2 ^ e)%Q.

(** The binary exponent of a positive number: [2^e <= q < 2^(e+1)]. *)
Definition exponent (q : Q) : Z :=
  let e := (Z.log2 (Qnum q) - Z.log2 (Zpos (Qden q)))%Z in
  if Qle_bool (exp2 e) q then e else (e - 1)%Z.

(** The distance between neighbouring doubles around [q]: 52 bits below
    the leading one, and [2^-1074] in the subnormal range. *)
Definition ulp_exponent (q : Q) : Z :=
  Z.max (exponent (Qabs q) - 52) (-1074).

Definition ulp (q : Q) : Q := exp2 (ulp_exponent q).

(** The double nearest to [q]. *)
Definition round (q : Q) : Q :=
  if Qeq_bool q 0 then 0%Q
  else (inject_Z (nearest_even (q / ulp q)) * ulp q)%Q.

(** [x * y] on numbers: the operands are doubles (a number written as a
    decimal literal stands for the double nearest to it), and the product
    is rounded. *)
Definition mul (x y : Q) : Q := round (round x * round y).


End Double.

Arguments Double.exp2 : simpl never.
Arguments Double.round : simpl never.
Arguments Double.mul : simpl never.

(** ** Timers of the runtime

    [setTimeout] and [setInterval] take a duration in milliseconds; a
    duration that is not within [1] and [TIMEOUT_MAX] is replaced by
    one millisecond, and the fraction of a millisecond is dropped. *)

Definition TIMEOUT_MAX : Q := 2147483647.

Definition timer_duration (after : Q) : Q :=
  if Qle_bool 1 after && Qle_bool after TIMEOUT_MAX
  then JS.Math_floor after
  else 1%Q.

(** ** Configuration *)

Record WsConfig := {
  ws_url : string;
  ws_token : string;
  insecureSkipTlsVerify : bool;
  heartbeatSec : option Q;
  reconnectBaseMs : option Q;
  reconnectMaxMs : option Q
}.

Record ReportingConfig := {
  intervalSec : option Q;
  sendOnConnect : bool
}.

Record DockerConfig := {
  docker_enabled : bool;
  docker_binary : string
}.

Record Config := {
  include : list string;
  exclude : list string;
  ws : WsConfig;
  reporting : ReportingConfig;
  docker : DockerConfig;
  http_enabled : bool;
  systemId : option string
}.

(** The built-in defaults (with no environment override). *)
Definition defaults : Config := {|
  include := [];
  exclude := [];
  ws := {| ws_url := ""; ws_token := ""; insecureSkipTlsVerify := false;
           heartbeatSec := Some 25%Q;
           reconnectBaseMs := Some 1000%Q;
           reconnectMaxMs := Some 30000%Q |};
  reporting := {| intervalSec := Some 30%Q; sendOnConnect := true |};
  docker := {| docker_enabled := false; docker_binary := "docker" |};
  http_enabled := false;
  systemId := None
|}.

(** ** Timing parameters *)

Module Timing.
Import JS.

(** [scheduleReconnect]: [base], [max], [jitter], [backoff], [delay]. *)
Definition reconnect_base (c : Config) : Q :=
  Qmax 100 (num_or (reconnectBaseMs (ws c)) 1000).

Definition reconnect_max (c : Config) : Q :=
  Qmax (reconnect_base c) (num_or (reconnectMaxMs (ws c)) 30000).

(** [Math.floor(Math.random() * 200)], [random] being the value drawn. *)
Definition jitter (random : Q) : Q := Math_floor (random * 200).

Definition backoff (c : Config) (reconnectAttempts : nat) : Q :=
  Qmin (reconnect_max c)
       (Math_floor (reconnect_base c * pow2 reconnectAttempts)).

Definition delay (c : Config) (reconnectAttempts : nat) (random : Q) : Q :=
  (backoff c reconnectAttempts + jitter random)%Q.

(** [startHeartbeat]: the staleness [interval] and the period handed to
    [setInterval], both in milliseconds. *)
Definition heartbeat_interval (c : Config) : Q :=
  Double.mul (Qmax 5 (num_or (heartbeatSec (ws c)) 25)) 1000.

Definition heartbeat_period (c : Config) : Q :=
  Math_floor (Double.mul (num_or (heartbeatSec (ws c)) 25) 1000).

(** [startPeriodicReports]: [ms]. *)
Definition report_period (c : Config) : Q :=
  Double.mul (Qmax 5 (num_or (intervalSec (reporting c)) 30)) 1000.

End Timing.

Arguments Timing.reconnect_base : simpl never.
Arguments Timing.reconnect_max : simpl never.
Arguments Timing.jitter : simpl never.
Arguments Timing.backoff : simpl never.
Arguments Timing.delay : simpl never.
Arguments Timing.heartbeat_interval : simpl never.
Arguments Timing.heartbeat_period : simpl never.
Arguments Timing.report_period : simpl never.

(** A configuration whose heartbeat is set to one second. *)
Definition fast_heartbeat : Config := {|
  include := include defaults;
  exclude := exclude defaults;
  ws := {| ws_url := "wss://collector.example/agent"; ws_token := "";
           insecureSkipTlsVerify := false;
           heartbeatSec := Some 1%Q;
           reconnectBaseMs := reconnectBaseMs (ws defaults);
           reconnectMaxMs := reconnectMaxMs (ws defaults) |};
  reporting := reporting defaults;
  docker := docker defaults;
  http_enabled := false;
  systemId := None
|}.


(** [config.ws.url]. *)
Definition config_ws_url (c : Config) : string := ws_url (ws c).

(** ** Connection manager

    The module-level variables [ws], [wsTimerHeartbeat], [wsTimerReconnect],
    [lastPongAt] and [reconnectAttempts], the runtime's queue of pending
    reconnect timeouts, and the calls made on the socket and the runtime, in
    order.  The handlers registered by [connectWS], the two timer callbacks
    and [shutdown] are the events; [step] is their bodies.  The socket is
    represented by its [readyState], which the [ws] library moves as
    follows: [CONNECTING] on creation, [OPEN] when it emits [open],
    [CLOSING] on [terminate()] or [close()], [CLOSED] when it emits
    [close].  The url, when configured, is taken to be well formed. *)

Module Conn.

Inductive ReadyState := CONNECTING | OPEN | CLOSING | CLOSED.

Inductive Action :=
| NewWebSocket
| Send (type : string)
| Ping
| Terminate
| Close
| SetTimeout (handle : nat) (delay : Q)
| SetInterval (period : Q)
| ClearInterval.

Record State := {
  ws : option ReadyState;
  wsTimerHeartbeat : option Q;
  wsTimerReconnect : option nat;
  lastPongAt : Z;
  reconnectAttempts : nat;
  timeouts : list (nat * Q);
  next_handle : nat;
  trace : list Action
}.

Definition initial : State := {|
  ws := None; wsTimerHeartbeat := None; wsTimerReconnect := None;
  lastPongAt := 0; reconnectAttempts := 0;
  timeouts := []; next_handle := 0; trace := []
|}.

Inductive Event :=
| Boot
| WsOpen (now : Z)
| WsPong (now : Z)
| WsClose (random : Q)
| WsError
| HeartbeatTick (now : Z)
| ReconnectTimeout (handle : nat)
| WsSend (type : string)
| Shutdown.

(** Field updates. *)
Definition set_ws (v : option ReadyState) (s : State) : State :=
  {| ws := v; wsTimerHeartbeat := wsTimerHeartbeat s;
     wsTimerReconnect := wsTimerReconnect s; lastPongAt := lastPongAt s;
     reconnectAttempts := reconnectAttempts s; timeouts := timeouts s;
     next_handle := next_handle s; trace := trace s |}.

Definition set_wsTimerHeartbeat (v : option Q) (s : State) : State :=
  {| ws := ws s; wsTimerHeartbeat := v;
     wsTimerReconnect := wsTimerReconnect s; lastPongAt := lastPongAt s;
     reconnectAttempts := reconnectAttempts s; timeouts := timeouts s;
     next_handle := next_handle s; trace := trace s |}.

Definition set_wsTimerReconnect (v : option nat) (s : State) : State :=
  {| ws := ws s; wsTimerHeartbeat := wsTimerHeartbeat s;
     wsTimerReconnect := v; lastPongAt := lastPongAt s;
     reconnectAttempts := reconnectAttempts s; timeouts := timeouts s;
     next_handle := next_handle s; trace := trace s |}.

Definition set_lastPongAt (v : Z) (s : State) : State :=
  {| ws := ws s; wsTimerHeartbeat := wsTimerHeartbeat s;
     wsTimerReconnect := wsTimerReconnect s; lastPongAt := v;
     reconnectAttempts := reconnectAttempts s; timeouts := timeouts s;
     next_handle := next_handle s; trace := trace s |}.

Definition set_reconnectAttempts (v : nat) (s : State) : State :=
  {| ws := ws s; wsTimerHeartbeat := wsTimerHeartbeat s;
     wsTimerReconnect := wsTimerReconnect s; lastPongAt := lastPongAt s;
     reconnectAttempts := v; timeouts := timeouts s;
     next_handle := next_handle s; trace := trace s |}.

Definition set_timeouts (v : list (nat * Q)) (s : State) : State :=
  {| ws := ws s; wsTimerHeartbeat := wsTimerHeartbeat s;
     wsTimerReconnect := wsTimerReconnect s; lastPongAt := lastPongAt s;
     reconnectAttempts := reconnectAttempts s; timeouts := v;
     next_handle := next_handle s; trace := trace s |}.

Definition set_next_handle (v : nat) (s : State) : State :=
  {| ws := ws s; wsTimerHeartbeat := wsTimerHeartbeat s;
     wsTimerReconnect := wsTimerReconnect s; lastPongAt := lastPongAt s;
     reconnectAttempts := reconnectAttempts s; timeouts := timeouts s;
     next_handle := v; trace := trace s |}.

(** A call on the socket or the runtime, appended to the trace. *)
Definition emit (a : Action) (s : State) : State :=
  {| ws := ws s; wsTimerHeartbeat := wsTimerHeartbeat s;
     wsTimerReconnect := wsTimerReconnect s; lastPongAt := lastPongAt s;
     reconnectAttempts := reconnectAttempts s; timeouts := timeouts s;
     next_handle := next_handle s; trace := trace s ++ [a] |}.

Definition is_open (s : State) : bool :=
  match ws s with Some OPEN => true | _ => false end.

Section Handlers.
Variable config : Config.

(** [wsSend]: sent when the socket is open, dropped otherwise. *)
Definition wsSend (type : string) (s : State) : State :=
  if is_open s then emit (Send type) s else s.

(** [setTimeout(cb, delay)]: a fresh handle, queued by the runtime with
    the delay as handed over; [timer_duration] tells for how long the
    runtime arms the timer. *)
Definition setTimeout (delay : Q) (s : State) : nat * State :=
  let h := next_handle s in
  (h, emit (SetTimeout h delay)
        (set_next_handle (S h)
           (set_timeouts (timeouts s ++ [(h, delay)]) s))).

Definition scheduleReconnect (random : Q) (s : State) : State :=
  match wsTimerReconnect s with
  | Some _ => s
  | None =>
      let delay := Timing.delay config (reconnectAttempts s) random in
      let '(h, s1) := setTimeout delay s in
      set_wsTimerReconnect (Some h) s1
  end.

Definition stopHeartbeat (s : State) : State :=
  match wsTimerHeartbeat s with
  | Some _ => set_wsTimerHeartbeat None (emit ClearInterval s)
  | None => s
  end.

Definition startHeartbeat (s : State) : State :=
  let s1 := stopHeartbeat s in
  let period := Timing.heartbeat_period config in
  set_wsTimerHeartbeat (Some period) (emit (SetInterval period) s1).

Definition connectWS (s : State) : State :=
  if String.eqb (config_ws_url config) "" then s
  else set_ws (Some CONNECTING) (emit NewWebSocket s).

(** [ws.on("open", ...)], up to the first [await]. *)
Definition on_open (now : Z) (s : State) : State :=
  match ws s with
  | Some CONNECTING =>
      let s1 := set_ws (Some OPEN) s in
      let s2 := set_reconnectAttempts 0 s1 in
      let s3 := set_lastPongAt now s2 in
      let s4 := startHeartbeat s3 in
      wsSend "hello" s4
  | _ => s
  end.

Definition on_pong (now : Z) (s : State) : State := set_lastPongAt now s.

Definition on_close (random : Q) (s : State) : State :=
  let s0 := match ws s with
            | Some _ => set_ws (Some CLOSED) s
            | None => s
            end in
  let s1 := stopHeartbeat s0 in
  let s2 := set_reconnectAttempts (S (reconnectAttempts s1)) s1 in
  scheduleReconnect random s2.

(** The callback of [setInterval] in [startHeartbeat]; it runs only
    while the interval timer is armed. *)
Definition heartbeat_tick (now : Z) (s : State) : State :=
  match wsTimerHeartbeat s with
  | None => s
  | Some _ =>
      if negb (is_open s) then s
      else
        let s1 := emit Ping s in
        let interval := Timing.heartbeat_interval config in
        if negb (lastPongAt s1 =? 0)%Z
           && negb (Qle_bool (inject_Z (now - lastPongAt s1))
                             (interval * 2))
        then set_ws (Some CLOSING) (emit Terminate s1)
        else s1
  end.

(** The callback of [setTimeout] in [scheduleReconnect]; it runs only
    if the runtime holds that timeout. *)
Definition reconnect_timeout (h : nat) (s : State) : State :=
  if existsb (fun t => Nat.eqb (fst t) h) (timeouts s) then
    let s1 := set_timeouts
                (List.filter (fun t => negb (Nat.eqb (fst t) h)) (timeouts s))
                s in
    connectWS (set_wsTimerReconnect None s1)
  else s.

(** [shutdown], as far as the connection is concerned. *)
Definition shutdown (s : State) : State :=
  let s1 := stopHeartbeat s in
  match ws s1 with
  | Some OPEN | Some CONNECTING =>
      set_ws (Some CLOSING) (emit Close s1)
  | Some _ => emit Close s1
  | None => s1
  end.

Definition step (s : State) (e : Event) : State :=
  match e with
  | Boot => connectWS s
  | WsOpen now => on_open now s
  | WsPong now => on_pong now s
  | WsClose random => on_close random s
  | WsError => s
  | HeartbeatTick now => heartbeat_tick now s
  | ReconnectTimeout h => reconnect_timeout h s
  | WsSend type => wsSend type s
  | Shutdown => shutdown s
  end.

Definition run (s : State) (evs : list Event) : State :=
  fold_left step evs s.

End Handlers.

End Conn.

(** The reconnect timer as the runtime sees it and as [wsTimerReconnect]
    records it: the variable holds a handle exactly when that handle is the
    one pending timeout. *)
Definition reconnect_timer_inv (s : Conn.State) : Prop :=
  match Conn.wsTimerReconnect s with
  | Some h => exists d, Conn.timeouts s = [(h, d)]
  | None => Conn.timeouts s = []
  end.

(** While the socket is open the liveness timestamp is set and the
    heartbeat timer is armed. *)
Definition heartbeat_inv (s : Conn.State) : Prop :=
  Conn.ws s = Some Conn.OPEN ->
  Conn.lastPongAt s <> 0%Z /\ Conn.wsTimerHeartbeat s <> None.


(** ** Identifiers *)

(** The characters the slug keeps: [[a-z0-9._-]]. *)
Definition slug_char (c : ascii) : bool :=
  JS.between 97 122 c || JS.between 48 57 c
  || (JS.code c =? 46)%N || (JS.code c =? 95)%N || (JS.code c =? 45)%N.

Definition is_dash (c : ascii) : bool := (JS.code c =? 45)%N.

(** [.replace(/[^a-z0-9._-]+/g, "-")]: scanning from the left, every
    match is a longest run of other characters and becomes one dash;
    [in_match] tells that the scan is inside such a run. *)
Fixpoint replace_runs (in_match : bool) (s : string) : string :=
  match s with
  | EmptyString => EmptyString
  | String c r =>
      if slug_char c then String c (replace_runs false r)
      else if in_match then replace_runs true r
      else String "-" (replace_runs true r)
  end.

(** [.replace(/^-+|-+$/g, "")]: the dashes at the start and the dashes at
    the end are removed. *)
Fixpoint strip_leading_dashes (s : string) : string :=
  match s with
  | String c r => if is_dash c then strip_leading_dashes r else s
  | EmptyString => EmptyString
  end.

Fixpoint strip_trailing_dashes (s : string) : string :=
  match s with
  | EmptyString => EmptyString
  | String c r =>
      match strip_trailing_dashes r with
      | EmptyString => if is_dash c then EmptyString else String c EmptyString
      | r' => String c r'
      end
  end.

Definition slug (s : string) : string :=
  strip_trailing_dashes
    (strip_leading_dashes (replace_runs false (JS.toLowerCase s))).

(** The normalisation as the specification words it: the lowercased name
    is cut into its maximal runs of kept and of other characters, every
    run of other characters becomes one separator, and the separators at
    both ends are dropped. *)
Fixpoint maximal_runs (s : string) : list (bool * string) :=
  match s with
  | EmptyString => []
  | String c r =>
      match maximal_runs r with
      | (k, run) :: rest =>
          if Bool.eqb k (slug_char c) then (k, String c run) :: rest
          else (slug_char c, String c "") :: (k, run) :: rest
      | [] => [(slug_char c, String c "")]
      end
  end.

Definition run_text (r : bool * string) : string :=
  if fst r then snd r else "-".

Fixpoint concat_strings (l : list string) : string :=
  match l with
  | [] => ""
  | x :: r => x +:+ concat_strings r
  end.

Definition slug_spec (s : string) : string :=
  strip_trailing_dashes
    (strip_leading_dashes
       (concat_strings (map run_text (maximal_runs (JS.toLowerCase s))))).

Definition first_char (s : string) : option ascii :=
  match s with String c _ => Some c | EmptyString => None end.

Fixpoint last_char (s : string) : option ascii :=
  match s with
  | EmptyString => None
  | String c EmptyString => Some c
  | String _ r => last_char r
  end.

(** ** The host and the runtime *)

Inductive Platform := linux | darwin | other_platform.

Record Host := {
  HOSTNAME : string;
  SYSTEM_ID : string;
  platform : Platform
}.

Definition isLinux (h : Host) : bool :=
  match platform h with linux => true | _ => false end.

Definition isMac (h : Host) : bool :=
  match platform h with darwin => true | _ => false end.

(** Built-ins whose result depends on the runtime and its locale data:
    [a.localeCompare(b)], and for the status column of [launchctl list]
    the test [isNaN(Number(x)) || Number(x) === 0]. *)
Record Runtime := {
  localeCompare : string -> string -> Z;
  nan_or_zero : option string -> bool
}.

Definition mkId (h : Host) (serviceName : string) : string :=
  slug (HOSTNAME h) +:+ ":" +:+ slug serviceName.

Definition mkGlobalId (h : Host) (serviceName : string) : string :=
  SYSTEM_ID h +:+ ":" +:+ slug serviceName.

(** [obj[k] = v] on a plain object: the own property [k] is set, except
    for the key [__proto__], which reaches the setter inherited from
    [Object.prototype]; that setter ignores a string and stores nothing. *)
Definition set_property (k v : string) (obj : gmap string string)
    : gmap string string :=
  if String.eqb k "__proto__" then obj else <[k := v]> obj.

(** ** Service records and the enumerators *)

Module Svc.
Record t := {
  id : string;
  gid : string;
  systemId : string;
  host : string;
  service : string;
  description : string;
  load : string;
  active : string;
  sub : option string;
  unitFileState : string;
  path : string;
  healthy : bool;
  updatedAt : string;
  platform : string
}.
End Svc.

Section Enumerators.
Variable rt : Runtime.
Variable config : Config.
Variable h : Host.

(** The two filters, as each service-manager enumerator applies them:
    [true] when the record is skipped. *)
Definition filtered_out (name : string) : bool :=
  (negb (Nat.eqb (length (include config)) 0)
   && negb (JS.includes (include config) name))
  || JS.includes (exclude config) name.

Definition by_service (a b : Svc.t) : Z :=
  localeCompare rt (Svc.service a) (Svc.service b).

(** [listSystemdServices]: the object built from the lines of one
    section. *)
Definition parse_section (sec : string) : gmap string string :=
  fold_left
    (fun (obj : gmap string string) line =>
       match JS.indexOf "=" line with
       | Some (S i) =>
           set_property (JS.slice_to (S i) line)
                        (JS.slice_from (S i + 1) line) obj
       | _ => obj
       end)
    (JS.split JS.LF sec) ∅.

Definition is_value (x : option string) (v : string) : bool :=
  match x with Some s => String.eqb s v | None => false end.

Definition systemd_record (now : string) (sec : string) : option Svc.t :=
  let obj := parse_section sec in
  match obj !! "Id" with
  | None => None
  | Some Id =>
      if negb (JS.truthy Id) || negb (JS.endsWith ".service" Id) then None
      else if filtered_out Id then None
      else
        let name := Id in
        Some {|
          Svc.id := mkId h name;
          Svc.gid := mkGlobalId h name;
          Svc.systemId := SYSTEM_ID h;
          Svc.host := HOSTNAME h;
          Svc.service := name;
          Svc.description := JS.str_or (obj !! "Description") "";
          Svc.load := JS.str_or (obj !! "LoadState") "unknown";
          Svc.active := JS.str_or (obj !! "ActiveState") "unknown";
          Svc.sub := Some (JS.str_or (obj !! "SubState") "unknown");
          Svc.unitFileState := JS.str_or (obj !! "UnitFileState") "unknown";
          Svc.path := JS.str_or (obj !! "FragmentPath") "";
          Svc.healthy :=
            (is_value (obj !! "ActiveState") "active"
             && is_value (obj !! "SubState") "running")
            || is_value (obj !! "ActiveState") "active";
          Svc.updatedAt := now;
          Svc.platform := "linux"
        |}
  end.

Definition listSystemdServices (stdout now : string) : list Svc.t :=
  let sections :=
    List.filter JS.truthy
      (map JS.trim (JS.split (JS.LF +:+ JS.LF) stdout)) in
  let services := omap (systemd_record now) sections in
  JS.sort by_service services.

Definition launchd_record (now : string) (line : string) : option Svc.t :=
  if negb (JS.truthy (JS.trim line)) then None
  else
    let parts := JS.split_spaces (JS.trim line) in
    match List.last (map Some parts) None with
    | None => None
    | Some label =>
        if negb (JS.truthy label) then None
        else
          let pidRaw := List.hd "" parts in
          let statusRaw := List.nth_error parts 1 in
          let running :=
            JS.truthy pidRaw && negb (String.eqb pidRaw "-")
            && JS.test_digits pidRaw in
          let healthy := running && nan_or_zero rt statusRaw in
          if filtered_out label then None
          else
            Some {|
              Svc.id := mkId h label;
              Svc.gid := mkGlobalId h label;
              Svc.systemId := SYSTEM_ID h;
              Svc.host := HOSTNAME h;
              Svc.service := label;
              Svc.description := "";
              Svc.load := if running then "loaded" else "not-loaded";
              Svc.active := if running then "active" else "inactive";
              Svc.sub := Some (if running then "running" else "stopped");
              Svc.unitFileState := "unknown";
              Svc.path := "";
              Svc.healthy := healthy;
              Svc.updatedAt := now;
              Svc.platform := "darwin"
            |}
    end.

Definition listLaunchdServices (stdout now : string) : list Svc.t :=
  let lines := List.tl (JS.split JS.LF stdout) in
  let services := omap (launchd_record now) lines in
  JS.sort by_service services.

Definition docker_record (now : string) (l : string) : Svc.t :=
  let fields := JS.split "|" l in
  let id := List.nth_error fields 0 in
  let name := List.nth_error fields 1 in
  let status := List.nth_error fields 2 in
  let up := JS.test_Up_space (JS.template status) in
  {|
    Svc.id := mkId h ("docker:" +:+ JS.template name);
    Svc.gid := mkGlobalId h ("docker:" +:+ JS.template name);
    Svc.systemId := SYSTEM_ID h;
    Svc.host := HOSTNAME h;
    Svc.service := "docker:" +:+ JS.template name;
    Svc.description := "Container " +:+ JS.template id;
    Svc.load := "loaded";
    Svc.active := if up then "active" else "inactive";
    Svc.sub := status;
    Svc.unitFileState := "container";
    Svc.path := "";
    Svc.healthy := up;
    Svc.updatedAt := now;
    Svc.platform := "docker"
  |}.

Definition listDockerContainers (stdout now : string) : list Svc.t :=
  if negb (docker_enabled (docker config)) then []
  else
    let lines := List.filter JS.truthy (JS.split JS.LF (JS.trim stdout)) in
    map (docker_record now) lines.

(** What the three commands print, and the clock.  One reading stands
    for all the [new Date()] of a snapshot; the agent takes one for every
    record and one for [takenAt], and the theorems on snapshots state
    nothing about the time stamps of the records. *)
Record Outputs := {
  systemctl_stdout : string;
  launchctl_stdout : string;
  docker_stdout : string;
  clock : string
}.

Record Snapshot := {
  services : list Svc.t;
  takenAt : string
}.

Definition takeSnapshot (o : Outputs) : Snapshot :=
  let parts :=
    (if isLinux h
     then [listSystemdServices (systemctl_stdout o) (clock o)] else [])
    ++ (if isMac h
        then [listLaunchdServices (launchctl_stdout o) (clock o)] else [])
    ++ (if docker_enabled (docker config)
        then [listDockerContainers (docker_stdout o) (clock o)] else []) in
  {| services := concat parts; takenAt := clock o |}.

End Enumerators.

(** ** Sample hosts, runtimes and configurations *)

Definition web1 : Host :=
  {| HOSTNAME := "web1"; SYSTEM_ID := "sys-1"; platform := linux |}.

(** [isNaN(Number(x)) || Number(x) === 0] on what [launchctl list] prints
    in its status column: [-] or a decimal integer with an optional
    sign. *)
Definition nan_or_zero_of_integers (x : option string) : bool :=
  match x with
  | None => true
  | Some s =>
      let digits := match s with
                    | String c r =>
                        if (JS.code c =? 45)%N || (JS.code c =? 43)%N
                        then r else s
                    | EmptyString => s
                    end in
      negb (JS.test_digits digits)
      || JS.all_chars (fun c => (JS.code c =? 48)%N) digits
  end.

(** A runtime that compares by code units. *)
Definition code_unit_runtime : Runtime :=
  {| localeCompare := JS.compare_code_units;
     nan_or_zero := nan_or_zero_of_integers |}.

(** A runtime whose collation compares letters without regard to case
    first, as the locale-aware collations do: [a] sorts before [B]. *)
Definition case_folding_runtime : Runtime :=
  {| localeCompare :=
       fun a b => JS.compare_code_units (JS.toLowerCase a) (JS.toLowerCase b);
     nan_or_zero := nan_or_zero_of_integers |}.

(** Containers enabled, one unit on the include list and one container on
    the exclude list. *)
Definition docker_filtering : Config := {|
  include := ["nginx.service"];
  exclude := ["docker:web"];
  ws := ws defaults;
  reporting := reporting defaults;
  docker := {| docker_enabled := true; docker_binary := "docker" |};
  http_enabled := false;
  systemId := None
|}.

(** Containers enabled, no filter. *)
Definition docker_on : Config := {|
  include := [];
  exclude := [];
  ws := ws defaults;
  reporting := reporting defaults;
  docker := {| docker_enabled := true; docker_binary := "docker" |};
  http_enabled := false;
  systemId := None
|}.

(** Two units whose names differ in one character that the slug
    replaces. *)
Definition colliding_units : Outputs := {|
  systemctl_stdout :=
    "Id=foo@a.service" +:+ JS.LF +:+ "ActiveState=active" +:+ JS.LF
    +:+ JS.LF
    +:+ "Id=foo-a.service" +:+ JS.LF +:+ "ActiveState=active" +:+ JS.LF;
  launchctl_stdout := "";
  docker_stdout := "";
  clock := "2025-01-01T00:00:00.000Z"
|}.

Definition ids (s : Snapshot) : list string := map Svc.id (services s).

Definition service_slugs (s : Snapshot) : list string :=
  map (fun r => slug (Svc.service r)) (services s).

(** Ordered by the comparator the service-manager enumerators sort with. *)
Definition sorted_by_localeCompare (rt : Runtime) (l : list Svc.t) : Prop :=
  StronglySorted
    (fun a b => (localeCompare rt (Svc.service a) (Svc.service b) <= 0)%Z) l.

(** Ordered by the code units of the service name. *)
Definition sorted_by_code_units (l : list Svc.t) : Prop :=
  Sorted
    (fun a b =>
       (JS.compare_code_units (Svc.service a) (Svc.service b) <= 0)%Z) l.

(** The two filters as the specification words them. *)
Definition passes_filters (config : Config) (name : string) : Prop :=
  (include config = [] \/ name ∈ include config)
  /\ name ∉ exclude config.

(** ** System identity

    The file system as [initSystemId] touches it: a file has a content, the
    permission bits it was created with and may be unreadable;
    [writeFileSync] succeeds on the paths the agent may write, creates a
    missing file with the mode it is given and keeps the mode of a file
    that exists. *)

Module FS.

Record File := {
  content : string;
  mode : N;
  readable : bool
}.

Record t := {
  files : gmap string File;
  writable : string -> bool
}.

Definition existsSync (fs : t) (p : string) : bool :=
  bool_decide (is_Some (files fs !! p)).

(** [None] when the call throws. *)
Definition readFileSync (fs : t) (p : string) : option string :=
  match files fs !! p with
  | Some f => if readable f then Some (content f) else None
  | None => None
  end.

Definition writeFileSync (fs : t) (p : string) (data : string) (m : N)
    : option t :=
  if writable fs p then
    let f := match files fs !! p with
             | Some old => {| content := data; mode := mode old;
                              readable := readable old |}
             | None => {| content := data; mode := m; readable := true |}
             end in
    Some {| files := <[p := f]> (files fs); writable := writable fs |}
  else None.

End FS.

(** [0o600]. *)
Definition owner_only : N := 384.

(** What identity resolution reads besides the configuration and the file
    system: the id path override of the environment, the two joined
    candidate paths, the output of the [ioreg] query, the hardware
    addresses of the interface entries ([None] when [networkInterfaces]
    throws), the digest function and the random identifier. *)
Record IdentityEnv := {
  SVC_AGENT_ID_PATH : string;
  cwd_id_path : string;
  dirname_id_path : string;
  ioreg_stdout : string;
  interface_macs : option (list string);
  sha256_hex : string -> string;
  randomUUID : string
}.

Section Identity.
Variable config : Config.
Variable h : Host.
Variable env : IdentityEnv.

Definition ID_FILE_CANDIDATES : list string :=
  List.filter JS.truthy
    [SVC_AGENT_ID_PATH env; "/etc/tds-svc-agent.id";
     cwd_id_path env; dirname_id_path env].

Fixpoint readFirstExisting (fs : FS.t) (paths : list string)
    : option string :=
  match paths with
  | [] => None
  | p :: rest =>
      if FS.existsSync fs p then
        match FS.readFileSync fs p with
        | Some c => Some (JS.trim c)
        | None => readFirstExisting fs rest
        end
      else readFirstExisting fs rest
  end.

(** Returns the path written, or [None], and the file system after. *)
Fixpoint writeFirstWritable (fs : FS.t) (paths : list string)
    (value : string) : option string * FS.t :=
  match paths with
  | [] => (None, fs)
  | p :: rest =>
      match FS.writeFileSync fs p (value +:+ JS.LF) owner_only with
      | Some fs' => (Some p, fs')
      | None => writeFirstWritable fs rest value
      end
  end.

Definition getLinuxMachineId (fs : FS.t) : option string :=
  let a := "/etc/machine-id" in
  let b := "/var/lib/dbus/machine-id" in
  if FS.existsSync fs a then option_map JS.trim (FS.readFileSync fs a)
  else if FS.existsSync fs b then option_map JS.trim (FS.readFileSync fs b)
  else None.

Definition getMacPlatformUUID : option string :=
  let v := JS.trim (ioreg_stdout env) in
  if JS.truthy v then Some v else None.

Definition is_truthy (x : option string) : bool :=
  match x with Some v => JS.truthy v | None => false end.

Definition hash_fallback : option string :=
  match interface_macs env with
  | None => None
  | Some all =>
      let macs :=
        JS.join ","
          (JS.sort JS.compare_code_units
             (List.filter
                (fun m => JS.truthy m
                          && negb (String.eqb m "00:00:00:00:00:00"))
                all)) in
      let hash :=
        JS.slice_to 32 (sha256_hex env (HOSTNAME h +:+ "|" +:+ macs)) in
      Some ("sha256-" +:+ hash)
  end.

(** How the identity was obtained. *)
Inductive Resolution :=
| FromOverride | FromPersisted | FromPlatform | FromHash | FromRandom.

(** The value resolved by the steps after the persisted file. *)
Definition derive (fs : FS.t) : Resolution * string :=
  let osId :=
    match platform h with
    | linux => getLinuxMachineId fs
    | darwin => getMacPlatformUUID
    | other_platform => None
    end in
  match osId with
  | Some v =>
      if JS.truthy v then (FromPlatform, v)
      else
        match hash_fallback with
        | Some v' => (FromHash, v')
        | None => (FromRandom, randomUUID env)
        end
  | None =>
      match hash_fallback with
      | Some v' => (FromHash, v')
      | None => (FromRandom, randomUUID env)
      end
  end.

(** [initSystemId]: how the value was resolved, the value, and the file
    system after the call. *)
Definition initSystemId (fs : FS.t) : Resolution * string * FS.t :=
  if is_truthy (systemId config)
  then (FromOverride, JS.trim (JS.template (systemId config)), fs)
  else
    let persisted := readFirstExisting fs ID_FILE_CANDIDATES in
    if is_truthy persisted
    then (FromPersisted, JS.template persisted, fs)
    else
      let '(how, osId) := derive fs in
      let '(_, fs') := writeFirstWritable fs ID_FILE_CANDIDATES osId in
      (how, osId, fs').

End Identity.

(** The first candidate the agent may write. *)
Definition first_writable (fs : FS.t) (paths : list string) : option string :=
  List.find (FS.writable fs) paths.

(** Whether a resolution goes through the steps that derive a new value. *)
Definition derived (how : Resolution) : bool :=
  match how with
  | FromOverride | FromPersisted => false
  | FromPlatform | FromHash | FromRandom => true
  end.

Definition sample_env : IdentityEnv := {|
  SVC_AGENT_ID_PATH := "";
  cwd_id_path := "/opt/tds-svc-agent/.tds-svc-agent.id";
  dirname_id_path := "/opt/tds-svc-agent/app/.tds-svc-agent.id";
  ioreg_stdout := "";
  interface_macs := Some ["00:00:00:00:00:00"; "52:54:00:12:34:56"];
  sha256_hex :=
    fun _ => "9f86d081884c7d659a2feaa0c55ad015a3bf4f1b2b0b822cd15d6c15b0f00a08";
  randomUUID := "123e4567-e89b-42d3-a456-426614174000"
|}.

(** An identity persisted earlier under [/etc], which the agent can read
    but not write; the working directory is writable. *)
Definition fs_with_persisted_id : FS.t := {|
  FS.files :=
    {[ "/etc/tds-svc-agent.id" :=
         {| FS.content := "abc-123" +:+ JS.LF; FS.mode := 420;
            FS.readable := true |} ]};
  FS.writable := fun p => String.eqb p "/opt/tds-svc-agent/.tds-svc-agent.id"
|}.

(** An empty identity file created earlier with mode [0o644], writable,
    next to the machine id of the host. *)
Definition fs_with_empty_id_file : FS.t := {|
  FS.files :=
    <[ "/etc/tds-svc-agent.id" :=
         {| FS.content := ""; FS.mode := 420; FS.readable := true |} ]>
    {[ "/etc/machine-id" :=
         {| FS.content := "4c4c4544004a" +:+ JS.LF; FS.mode := 292;
            FS.readable := true |} ]};
  FS.writable := fun p => String.eqb p "/etc/tds-svc-agent.id"
|}.

(** Nothing persisted yet; the working directory is the first candidate
    the agent may write. *)
Definition fs_fresh : FS.t := {|
  FS.files :=
    {[ "/etc/machine-id" :=
         {| FS.content := "4c4c4544004a" +:+ JS.LF; FS.mode := 292;
            FS.readable := true |} ]};
  FS.writable := fun p => String.eqb p "/opt/tds-svc-agent/.tds-svc-agent.id"
|}.

(** ** Remote installer command *)

(** One run of the installer script: whether the script is there, what it
    wrote to its two streams, and the exit code reported by [close]
    ([None] is [null], when a signal ended it). *)
Record InstallRun := {
  script_exists : bool;
  out : string;
  err : string;
  exit_code : option N
}.

(** The settled promise of [runLocalInstallSh]. *)
Inductive InstallOutcome :=
| Resolved (code : option N) (stdout : string)
| Rejected (message : string).

Definition show_code (code : option N) : string :=
  match code with Some n => pretty n | None => "null" end.

Definition is_zero (code : option N) : bool :=
  match code with Some n => (n =? 0)%N | None => false end.

Definition runLocalInstallSh (installSh : string) (run : InstallRun)
    : InstallOutcome :=
  if negb (script_exists run)
  then Rejected ("install.sh not found at " +:+ installSh)
  else
    let code := exit_code run in
    if negb (is_zero code) then
      let detail :=
        if JS.truthy (err run) then err run
        else if JS.truthy (out run) then out run
        else show_code code in
      Rejected
        (JS.trim ("install.sh failed (code " +:+ show_code code +:+ "): "
                  +:+ detail))
    else
      Resolved code (JS.slice_last 4000 (JS.str_or (Some (out run)) "")).

(** The [installResult] message. *)
Record InstallResult := {
  ir_id : option string;
  ok : bool;
  ir_stdout : option string;
  error : option string
}.

(** The [runInstall] case of [handleMessage]: the message handed to
    [wsSend], and whether [restartSelf] is scheduled. *)
Definition handle_runInstall (installSh : string) (id : option string)
    (restart : bool) (run : InstallRun) : InstallResult * bool :=
  match runLocalInstallSh installSh run with
  | Resolved _ stdout =>
      ({| ir_id := id; ok := true; ir_stdout := Some stdout;
          error := None |},
       restart)
  | Rejected message =>
      ({| ir_id := id; ok := false; ir_stdout := None;
          error := Some (if JS.truthy message then message else "Error") |},
       false)
  end.

Definition install_path : string := "/opt/tds-svc-agent/app/scripts/install.sh".

(** A successful run that wrote to the error stream only. *)
Definition run_with_warning : InstallRun := {|
  script_exists := true;
  out := "";
  err := "warning: node is out of date";
  exit_code := Some 0%N
|}.

(** A run that fails with exit code 1. *)
Definition run_failing : InstallRun := {|
  script_exists := true;
  out := "downloading";
  err := "ERROR: Need curl or wget to download." +:+ JS.LF;
  exit_code := Some 1%N
|}.

(** ** Scenarios of the specification *)

Definition two_units : string :=
  "Id=nginx.service" +:+ JS.LF +:+ "Description=A high performance web server"
  +:+ JS.LF +:+ "ActiveState=active" +:+ JS.LF +:+ "SubState=running"
  +:+ JS.LF +:+ JS.LF
  +:+ "Id=cups.service" +:+ JS.LF +:+ "ActiveState=inactive" +:+ JS.LF
  +:+ "SubState=dead" +:+ JS.LF +:+ JS.LF
  +:+ "Id=dbus.socket" +:+ JS.LF +:+ "ActiveState=active" +:+ JS.LF.

Definition launchctl_listing : string :=
  "PID" +:+ String "009" "Status" +:+ String "009" "Label" +:+ JS.LF
  +:+ "312" +:+ String "009" "0" +:+ String "009" "com.apple.mdworker"
  +:+ JS.LF
  +:+ "-" +:+ String "009" "78" +:+ String "009" "com.example.backup"
  +:+ JS.LF.

(** ** Further definitions for the enumerators *)

(** The sections [listSystemdServices] iterates over. *)
Definition systemd_sections (stdout : string) : list string :=
  List.filter JS.truthy (map JS.trim (JS.split (JS.LF +:+ JS.LF) stdout)).

Definition gids (s : Snapshot) : list string := map Svc.gid (services s).

(** A string without the code unit [c]. *)
Definition lacks (c : ascii) (s : string) : bool :=
  JS.all_chars (fun x => negb (Ascii.eqb x c)) s.

(** A [key=value] line as [systemctl show] prints it. *)
Definition property_line (kv : string * string) : string :=
  fst kv +:+ "=" +:+ snd kv.

(** A key of a property line: not empty, no [=], no line end. *)
Definition is_key (k : string) : bool :=
  JS.truthy k && lacks "=" k && lacks "010" k.

(** The pairs an object keeps: all but the ones with the key
    [__proto__]. *)
Definition stored (kv : string * string) : bool :=
  negb (String.eqb (fst kv) "__proto__").

(** What every record of an enumerator carries, whatever its source;
    [now] is the clock reading taken for that record. *)
Definition stamped (h : Host) (now : string) (r : Svc.t) : Prop :=
  Svc.host r = HOSTNAME h
  /\ Svc.systemId r = SYSTEM_ID h
  /\ Svc.gid r = mkGlobalId h (Svc.service r)
  /\ Svc.updatedAt r = now
  /\ (Svc.healthy r = true -> Svc.active r = "active").

(** ** Further definitions for the connection manager *)

(** Interval timers armed minus interval timers cleared, along a trace. *)
Fixpoint interval_balance (tr : list Conn.Action) : Z :=
  match tr with
  | [] => 0
  | Conn.SetInterval _ :: r => interval_balance r + 1
  | Conn.ClearInterval :: r => interval_balance r - 1
  | _ :: r => interval_balance r
  end.

Definition is_SetTimeout (a : Conn.Action) : bool :=
  match a with Conn.SetTimeout _ _ => true | _ => false end.

(** Actions that need no open socket. *)
Definition is_quiet (a : Conn.Action) : bool :=
  match a with
  | Conn.NewWebSocket | Conn.SetTimeout _ _ | Conn.Close => true
  | _ => false
  end.

Definition is_WsOpen (e : Conn.Event) : bool :=
  match e with Conn.WsOpen _ => true | _ => false end.

Definition is_WsClose (e : Conn.Event) : bool :=
  match e with Conn.WsClose _ => true | _ => false end.

(** The value drawn by [Math.random] is in [[0, 1)]. *)
Definition random_ok (e : Conn.Event) : bool :=
  match e with
  | Conn.WsClose random => Qle_bool 0 random && negb (Qle_bool 1 random)
  | _ => true
  end.

(** ** Further definitions for the system identity *)

(** The same environment with other interface addresses. *)
Definition with_macs (env : IdentityEnv) (macs : list string) : IdentityEnv :=
  {| SVC_AGENT_ID_PATH := SVC_AGENT_ID_PATH env;
     cwd_id_path := cwd_id_path env;
     dirname_id_path := dirname_id_path env;
     ioreg_stdout := ioreg_stdout env;
     interface_macs := Some macs;
     sha256_hex := sha256_hex env;
     randomUUID := randomUUID env |}.

(** ** Message dispatcher

    [handleMessage] after [JSON.parse]: the parse either throws or yields
    a value; [data || {}] leaves a value without fields when that value is
    not an object.  The request id stands for whatever JSON value the peer
    sent.  The socket state is the one at the time of the sends (the two
    sends of [refresh] are not separated by an [await]). *)

Record Inbound := {
  msg_type : option string;
  msg_id : option string;
  msg_restart : bool
}.

Inductive Parsed :=
| Unparsable
| Json (data : option Inbound).

Inductive Outbound :=
| Pong (ts : Z)
| SnapshotMsg (id : option string) (systemId host : string) (snap : Snapshot)
| OkMsg (id : option string) (takenAt : string) (count : nat)
| InstallResultMsg (r : InstallResult).

(** What one call of [handleMessage] reads from outside. *)
Record DispatchInput := {
  cmd_outputs : Outputs;
  date_now : Z;
  installSh_path : string;
  install_run : InstallRun;
  socket_open : bool
}.

Section Dispatcher.
Variable rt : Runtime.
Variable config : Config.
Variable h : Host.

(** The snapshot message built from a snapshot. *)
Definition snapshot_message (id : option string) (snap : Snapshot)
    : Outbound :=
  SnapshotMsg id (SYSTEM_ID h) (HOSTNAME h) snap.

(** The cached snapshot ([None] before the first one), the messages handed
    to the socket, and whether a restart is scheduled. *)
Definition handleMessage (i : DispatchInput) (lastSnapshot : option Snapshot)
    (p : Parsed) : option Snapshot * list Outbound * bool :=
  let wsSendAll (msgs : list Outbound) :=
    if socket_open i then msgs else [] in
  match p with
  | Unparsable => (lastSnapshot, [], false)
  | Json None => (lastSnapshot, [], false)
  | Json (Some data) =>
      let id := msg_id data in
      match msg_type data with
      | None => (lastSnapshot, [], false)
      | Some type =>
          if String.eqb type "ping" then
            (lastSnapshot, wsSendAll [Pong (date_now i)], false)
          else if String.eqb type "getSnapshot" then
            let snap := takeSnapshot rt config h (cmd_outputs i) in
            (Some snap, wsSendAll [snapshot_message id snap], false)
          else if String.eqb type "refresh" then
            let snap := takeSnapshot rt config h (cmd_outputs i) in
            (Some snap,
             wsSendAll [OkMsg id (takenAt snap) (length (services snap));
                        snapshot_message None snap],
             false)
          else if String.eqb type "runInstall" then
            let '(reply, restart) :=
              handle_runInstall (installSh_path i) id (msg_restart data)
                (install_run i) in
            (lastSnapshot, wsSendAll [InstallResultMsg reply], restart)
          else (lastSnapshot, [], false)
      end
  end.

(** A message type the dispatcher knows. *)
Definition known_type (type : string) : bool :=
  String.eqb type "ping" || String.eqb type "getSnapshot"
  || String.eqb type "refresh" || String.eqb type "runInstall".

(** A parsed frame the dispatcher acts on. *)
Definition recognised (p : Parsed) : bool :=
  match p with
  | Json (Some data) =>
      match msg_type data with Some type => known_type type | None => false end
  | _ => false
  end.

(** *** Local HTTP surface *)

(** [if (!lastSnapshot.takenAt) await takeSnapshot()]. *)
Definition ensure_snapshot (o : Outputs) (lastSnapshot : option Snapshot)
    : Snapshot :=
  match lastSnapshot with
  | Some snap => if JS.truthy (takenAt snap) then snap
                 else takeSnapshot rt config h o
  | None => takeSnapshot rt config h o
  end.

(** [GET /services/:id] of the HTTP edition: the cache after the request,
    and the record found ([None] is the 404 reply). *)
Definition get_service (o : Outputs) (lastSnapshot : option Snapshot)
    (id : string) : Snapshot * option Svc.t :=
  let snap := ensure_snapshot o lastSnapshot in
  (snap, List.find (fun s => String.eqb (Svc.id s) id) (services snap)).

End Dispatcher.

(** *** Metrics *)

(** The two gauges, each a map from its label values to the value set
    last: [tds_services_count] by host, [tds_service_healthy] by host,
    service and platform. *)
Record Metrics := {
  tds_services_count : gmap string Z;
  tds_service_healthy : gmap (string * string * string) Z
}.

Definition series_of (s : Svc.t) : string * string * string :=
  (Svc.host s, Svc.service s, Svc.platform s).

Definition health_value (s : Svc.t) : Z := if Svc.healthy s then 1 else 0.

(** [updateMetrics]; the gauges are [None] while the HTTP surface is off. *)
Definition updateMetrics (h : Host) (m : option Metrics) (snapshot : Snapshot)
    : option Metrics :=
  match m with
  | None => None
  | Some g =>
      Some {|
        tds_services_count :=
          <[HOSTNAME h := Z.of_nat (length (services snapshot))]>
            (tds_services_count g);
        tds_service_healthy :=
          fold_left (fun acc s => <[series_of s := health_value s]> acc)
            (services snapshot) (tds_service_healthy g)
      |}
  end.

(** ** Configuration loading *)

(** The top-level keys of a configuration file; a key that is present
    replaces the default as a whole. *)
Record Loaded := {
  l_include : option (list string);
  l_exclude : option (list string);
  l_ws : option WsConfig;
  l_reporting : option ReportingConfig;
  l_docker : option DockerConfig;
  l_http_enabled : option bool;
  l_systemId : option (option string)
}.

(** [{ ...config, ...loaded }]. *)
Definition merge_config (c : Config) (l : Loaded) : Config := {|
  include := default (include c) (l_include l);
  exclude := default (exclude c) (l_exclude l);
  ws := default (ws c) (l_ws l);
  reporting := default (reporting c) (l_reporting l);
  docker := default (docker c) (l_docker l);
  http_enabled := default (http_enabled c) (l_http_enabled l);
  systemId := default (systemId c) (l_systemId l)
|}.

(** A candidate path: no file, a file that cannot be read or parsed, or a
    file that parses. *)
Inductive ConfigFile :=
| Missing
| Invalid
| Parses (l : Loaded).

(** The loop over [CONFIG_PATHS]. *)
Fixpoint load_config (c : Config) (candidates : list ConfigFile) : Config :=
  match candidates with
  | [] => c
  | Missing :: rest => load_config c rest
  | Invalid :: rest => load_config c rest
  | Parses l :: _ => merge_config c l
  end.

Definition parses (f : ConfigFile) : bool :=
  match f with Parses _ => true | _ => false end.

(** ** Self restart *)

Record RestartEnv := {
  systemd_present : bool;
  systemctl_code : N;
  LAUNCHD_LABEL : string;
  spawn_throws : bool
}.

Inductive RestartAction :=
| SystemctlRestart
| LaunchctlKickstart (label : string)
| Relaunch
| Exit.

Definition restartSelf (h : Host) (env : RestartEnv) : list RestartAction :=
  if isLinux h && systemd_present env then
    if negb (systemctl_code env =? 0)%N then [SystemctlRestart; Exit]
    else [SystemctlRestart]
  else if isMac h && JS.truthy (LAUNCHD_LABEL env) then
    [LaunchctlKickstart (LAUNCHD_LABEL env)]
  else
    (if spawn_throws env then [] else [Relaunch]) ++ [Exit].

Definition asks_manager (a : RestartAction) : bool :=
  match a with SystemctlRestart | LaunchctlKickstart _ => true | _ => false end.

(* ================================================================== *)
(** * Properties *)
(* ================================================================== *)

(** ** Floating point *)

Section DoubleFacts.
Import Double.
Local Open Scope Q_scope.

Lemma exp2_pos e : 0 < exp2 e.
Proof. unfold exp2. by apply Qpower_0_lt. Qed.

Lemma exp2_plus a b : exp2 (a + b) == exp2 a * exp2 b.
Proof. unfold exp2. by apply Qpower_plus. Qed.

Lemma exp2_le a b : (a <= b)%Z -> exp2 a <= exp2 b.
Proof. intros H. unfold exp2. by apply Qpower_le_compat_l. Qed.

Lemma exp2_lt a b : (a < b)%Z -> exp2 a < exp2 b.
Proof. intros H. unfold exp2. by apply Qpower_lt_compat_l. Qed.

Lemma exp2_Z e : (0 <= e)%Z -> exp2 e == inject_Z (2 ^ e).
Proof. intros H. unfold exp2. by rewrite Zpower_Qpower. Qed.

(** Rounding to the nearest integer. *)

Lemma nearest_even_cases q :
  (nearest_even q = Qfloor q
   /\ (q - inject_Z (Qfloor q) <= 1 # 2))
  \/ (nearest_even q = (Qfloor q + 1)%Z
      /\ (1 # 2 <= q - inject_Z (Qfloor q))).
Proof.
  unfold nearest_even.
  destruct (Qcompare_spec (q - inject_Z (Qfloor q)) (1 # 2)) as [E|L|G].
  - destruct (Z.even (Qfloor q)); [left|right]; split; try done;
      rewrite E; apply Qle_refl.
  - left. split; [done|]. by apply Qlt_le_weak.
  - right. split; [done|]. by apply Qlt_le_weak.
Qed.

Lemma nearest_even_Z z : nearest_even (inject_Z z) = z.
Proof.
  unfold nearest_even. rewrite Qfloor_Z.
  destruct (Qcompare_spec (inject_Z z - inject_Z z) (1 # 2)) as [E|L|G].
  - exfalso. lra.
  - done.
  - exfalso. lra.
Qed.

Lemma nearest_even_le x y : x <= y -> (nearest_even x <= nearest_even y)%Z.
Proof.
  intros Hxy. pose proof (Qfloor_resp_le _ _ Hxy) as Hf.
  destruct (Z.eq_dec (Qfloor x) (Qfloor y)) as [E|Hne].
  - unfold nearest_even. rewrite <- E.
    destruct (Qcompare_spec (x - inject_Z (Qfloor x)) (1 # 2)) as [Ex|Lx|Gx];
    destruct (Qcompare_spec (y - inject_Z (Qfloor x)) (1 # 2)) as [Ey|Ly|Gy];
      try lia; try (exfalso; lra);
      destruct (Z.even (Qfloor x)); lia.
  - destruct (nearest_even_cases x) as [[-> _]|[-> _]];
    destruct (nearest_even_cases y) as [[-> _]|[-> _]]; lia.
Qed.

Lemma nearest_even_comp x y : x == y -> nearest_even x = nearest_even y.
Proof.
  intros E.
  apply Z.le_antisymm; apply nearest_even_le; rewrite E; apply Qle_refl.
Qed.

(** The binary exponent. *)

Lemma exponent_spec q :
  0 < q -> exp2 (exponent q) <= q /\ q < exp2 (exponent q + 1).
Proof.
  destruct q as [n d]. intros Hq.
  assert (Hn : (0 < n)%Z).
  { unfold Qlt in Hq. simpl in Hq. lia. }
  unfold exponent. cbn [Qnum Qden].
  set (a := Z.log2 n). set (b := Z.log2 (Z.pos d)).
  destruct (Z.log2_spec n Hn) as [Ha1 Ha2]. fold a in Ha1, Ha2.
  destruct (Z.log2_spec (Z.pos d) eq_refl) as [Hb1 Hb2]. fold b in Hb1, Hb2.
  assert (Ha0 : (0 <= a)%Z) by apply Z.log2_nonneg.
  assert (Hb0 : (0 <= b)%Z) by apply Z.log2_nonneg.
  assert (Hqd : n # d == inject_Z n / inject_Z (Z.pos d)) by apply Qmake_Qdiv.
  assert (Hd : 0 < inject_Z (Z.pos d)) by (unfold Qlt; simpl; lia).
  assert (Hsplit : forall k, exp2 (a - b + k) * exp2 b == exp2 (a + k)).
  { intros k. rewrite <- exp2_plus.
    by replace (a - b + k + b)%Z with (a + k)%Z by lia. }
  assert (Hup : n # d < exp2 (a - b + 1)).
  { rewrite Hqd. apply Qlt_shift_div_r; [done|].
    apply Qlt_le_trans with (exp2 (a - b + 1) * exp2 b).
    - rewrite Hsplit, exp2_Z by lia. rewrite <- Zlt_Qlt. lia.
    - apply Qmult_le_l; [apply exp2_pos|]. rewrite exp2_Z by lia.
      rewrite <- Zle_Qle. lia. }
  assert (Hlo : exp2 (a - b - 1) <= n # d).
  { rewrite Hqd. apply Qle_shift_div_l; [done|].
    apply Qle_trans with (exp2 (a - b - 1) * exp2 (b + 1)).
    - apply Qmult_le_l; [apply exp2_pos|]. rewrite exp2_Z by lia.
      rewrite <- Zle_Qle. lia.
    - rewrite <- exp2_plus. replace (a - b - 1 + (b + 1))%Z with a by lia.
      rewrite exp2_Z by lia. rewrite <- Zle_Qle. lia. }
  destruct (Qle_bool (exp2 (a - b)) (n # d)) eqn:Et.
  - apply Qle_bool_iff in Et. by split.
  - split.
    + done.
    + replace (a - b - 1 + 1)%Z with (a - b)%Z by lia.
      apply Qnot_le_lt. intros Hc. apply Qle_bool_iff in Hc. congruence.
Qed.

Lemma exponent_unique q e :
  exp2 e <= q -> q < exp2 (e + 1) -> exponent q = e.
Proof.
  intros H1 H2.
  assert (Hq : 0 < q) by (eapply Qlt_le_trans; [apply (exp2_pos e)|done]).
  destruct (exponent_spec q Hq) as [H3 H4].
  destruct (Z.lt_trichotomy (exponent q) e) as [L|[E|G]]; [|done|].
  - exfalso.
    assert (exp2 (exponent q + 1) <= exp2 e) by (apply exp2_le; lia). lra.
  - exfalso.
    assert (exp2 (e + 1) <= exp2 (exponent q)) by (apply exp2_le; lia). lra.
Qed.

Lemma exponent_le x y : 0 < x -> x <= y -> (exponent x <= exponent y)%Z.
Proof.
  intros Hx Hxy.
  destruct (exponent_spec x Hx) as [H1 H2].
  destruct (exponent_spec y) as [H3 H4]; [lra|].
  destruct (Z.le_gt_cases (exponent x) (exponent y)) as [L|G]; [done|].
  exfalso.
  assert (exp2 (exponent y + 1) <= exp2 (exponent x)) by (apply exp2_le; lia).
  lra.
Qed.

(** Rounding to a double. *)

Lemma Qabs_of_nonneg q : 0 <= q -> Qabs q = q.
Proof.
  destruct q as [n d]. unfold Qle, Qabs. cbn [Qnum Qden]. intros H.
  f_equal. lia.
Qed.

Lemma round_pos q :
  0 < q ->
  round q == inject_Z (nearest_even (q / exp2 (ulp_exponent q)))
             * exp2 (ulp_exponent q).
Proof.
  intros Hq. unfold round, ulp, ulp_exponent.
  destruct (Qeq_bool q 0) eqn:E; [|reflexivity].
  apply Qeq_bool_iff in E. lra.
Qed.

Lemma round_nonneg q : 0 <= q -> 0 <= round q.
Proof.
  intros Hq. unfold round. destruct (Qeq_bool q 0); [apply Qle_refl|].
  pose proof (exp2_pos (ulp_exponent q)) as Hu. fold (ulp q) in Hu.
  apply Qmult_le_0_compat; [|by apply Qlt_le_weak].
  change 0 with (inject_Z 0). rewrite <- Zle_Qle.
  rewrite <- (nearest_even_Z 0). apply nearest_even_le.
  change (inject_Z 0) with 0. apply Qle_shift_div_l; [done|]. lra.
Qed.

Lemma ulp_exponent_le x y :
  0 < x -> x <= y -> (ulp_exponent x <= ulp_exponent y)%Z.
Proof.
  intros Hx Hxy. unfold ulp_exponent.
  rewrite !Qabs_of_nonneg by lra.
  pose proof (exponent_le x y Hx Hxy). lia.
Qed.

Lemma round_le_pos x y : 0 < x -> x <= y -> round x <= round y.
Proof.
  intros Hx Hxy. assert (Hy : 0 < y) by lra.
  rewrite (round_pos x Hx), (round_pos y Hy).
  pose proof (ulp_exponent_le x y Hx Hxy) as He.
  pose proof (exp2_pos (ulp_exponent x)) as Hux.
  pose proof (exp2_pos (ulp_exponent y)) as Huy.
  destruct (Z.eq_dec (ulp_exponent x) (ulp_exponent y)) as [E|Hne].
  - rewrite <- E. apply Qmult_le_compat_r; [|lra].
    rewrite <- Zle_Qle. apply nearest_even_le.
    apply Qmult_le_compat_r; [done|].
    apply Qlt_le_weak, Qinv_lt_0_compat, Hux.
  - assert (Hlt : (ulp_exponent x < ulp_exponent y)%Z) by lia. clear He Hne.
    unfold ulp_exponent in Hlt. rewrite !Qabs_of_nonneg in Hlt by lra.
    set (j := exponent y) in *.
    assert (Ey : ulp_exponent y = (j - 52)%Z).
    { unfold ulp_exponent. rewrite Qabs_of_nonneg by lra. fold j. lia. }
    destruct (exponent_spec x Hx) as [_ Hx2].
    destruct (exponent_spec y Hy) as [Hy1 _]. fold j in Hy1.
    apply Qle_trans with (exp2 j).
    + set (ex := ulp_exponent x) in *.
      assert (Hex : (exponent x - 52 <= ex)%Z).
      { unfold ex, ulp_exponent. rewrite Qabs_of_nonneg by lra. lia. }
      assert (Hex' : (ex < j - 52)%Z).
      { unfold ex, ulp_exponent. rewrite Qabs_of_nonneg by lra. lia. }
      assert (Hk : exp2 j == inject_Z (2 ^ (j - ex)) * exp2 ex).
      { rewrite <- exp2_Z by lia. rewrite <- exp2_plus.
        by replace (j - ex + ex)%Z with j by lia. }
      rewrite Hk. apply Qmult_le_compat_r; [|lra].
      rewrite <- Zle_Qle. rewrite <- (nearest_even_Z (2 ^ (j - ex))).
      apply nearest_even_le. apply Qle_shift_div_r; [done|].
      rewrite <- Hk.
      assert (exp2 (exponent x + 1) <= exp2 j) by (apply exp2_le; lia). lra.
    + rewrite Ey in *.
      assert (Hk : exp2 j == inject_Z (2 ^ 52) * exp2 (j - 52)).
      { rewrite <- exp2_Z by lia. rewrite <- exp2_plus.
        by replace (52 + (j - 52))%Z with j by lia. }
      rewrite Hk at 1. apply Qmult_le_compat_r; [|lra].
      rewrite <- Zle_Qle. rewrite <- (nearest_even_Z (2 ^ 52)) at 1.
      apply nearest_even_le. apply Qle_shift_div_l; [done|].
      by rewrite <- Hk.
Qed.

Lemma nearest_even_spec q :
  let n := nearest_even q in
  q - (1 # 2) <= inject_Z n /\ inject_Z n <= q + (1 # 2)
  /\ (inject_Z n == q - (1 # 2) \/ inject_Z n == q + (1 # 2) ->
      Z.even n = true).
Proof.
  pose proof (Qfloor_le q) as Hf1. pose proof (Qlt_floor q) as Hf2.
  rewrite inject_Z_plus in Hf2. change (inject_Z 1) with 1 in Hf2.
  unfold nearest_even.
  destruct (Qcompare_spec (q - inject_Z (Qfloor q)) (1 # 2)) as [E|L|G].
  - destruct (Z.even (Qfloor q)) eqn:Ev.
    + repeat split; [lra|lra|done].
    + rewrite inject_Z_plus. change (inject_Z 1) with 1.
      repeat split; [lra|lra|]. intros _.
      rewrite Z.add_1_r, Z.even_succ, <- Z.negb_even, Ev. done.
  - repeat split; [lra|lra|]. intros [H|H]; exfalso; lra.
  - rewrite inject_Z_plus. change (inject_Z 1) with 1.
    repeat split; [lra|lra|]. intros [H|H]; exfalso; lra.
Qed.

Lemma nearest_even_unique q n :
  q - (1 # 2) <= inject_Z n -> inject_Z n <= q + (1 # 2) ->
  (inject_Z n == q - (1 # 2) \/ inject_Z n == q + (1 # 2) ->
   Z.even n = true) ->
  nearest_even q = n.
Proof.
  intros H1 H2 H3.
  destruct (nearest_even_spec q) as (G1 & G2 & G3).
  set (m := nearest_even q) in *.
  assert (Hd1 : (m <= n + 1)%Z).
  { rewrite Zle_Qle, inject_Z_plus. change (inject_Z 1) with 1. lra. }
  assert (Hd2 : (n <= m + 1)%Z).
  { rewrite Zle_Qle, inject_Z_plus. change (inject_Z 1) with 1. lra. }
  destruct (Z.eq_dec m n) as [|Hne]; [done|]. exfalso.
  assert (Hc : (m = n + 1 \/ n = m + 1)%Z) by lia.
  destruct Hc as [Hc|Hc].
  - assert (Em : inject_Z m == inject_Z n + 1).
    { rewrite Hc, inject_Z_plus. reflexivity. }
    assert (Z.even m = true) by (apply G3; right; lra).
    assert (Z.even n = true) by (apply H3; left; lra).
    rewrite Hc, Z.add_1_r, Z.even_succ, <- Z.negb_even in H.
    destruct (Z.even n); done.
  - assert (En : inject_Z n == inject_Z m + 1).
    { rewrite Hc, inject_Z_plus. reflexivity. }
    assert (Z.even m = true) by (apply G3; left; lra).
    assert (Z.even n = true) by (apply H3; right; lra).
    rewrite Hc, Z.add_1_r, Z.even_succ, <- Z.negb_even in H0.
    destruct (Z.even m); done.
Qed.

Lemma nearest_even_opp q : nearest_even (- q) = (- nearest_even q)%Z.
Proof.
  destruct (nearest_even_spec q) as (G1 & G2 & G3).
  apply nearest_even_unique; rewrite ?inject_Z_opp.
  - lra.
  - lra.
  - intros H. rewrite Z.even_opp. apply G3. destruct H; [right|left]; lra.
Qed.

Lemma round_opp q : round (- q) == - round q.
Proof.
  unfold round.
  assert (Eb : Qeq_bool (- q) 0 = Qeq_bool q 0).
  { destruct (Qeq_bool q 0) eqn:E.
    - apply Qeq_bool_iff in E. apply Qeq_bool_iff. lra.
    - apply Qeq_bool_neq in E. destruct (Qeq_bool (- q) 0) eqn:E'; [|done].
      apply Qeq_bool_iff in E'. exfalso. apply E. lra. }
  rewrite Eb. destruct (Qeq_bool q 0); [reflexivity|].
  assert (Eu : ulp (- q) = ulp q).
  { unfold ulp, ulp_exponent. destruct q as [n d]. unfold Qopp, Qabs.
    cbn [Qnum Qden].
    by rewrite Z.abs_opp. }
  rewrite Eu.
  assert (En : nearest_even (- q / ulp q) = (- nearest_even (q / ulp q))%Z).
  { rewrite <- nearest_even_opp. apply nearest_even_comp.
    unfold Qdiv. ring. }
  rewrite En, inject_Z_opp. ring.
Qed.

Lemma round_0 q : q == 0 -> round q == 0.
Proof.
  intros E. unfold round. apply Qeq_bool_iff in E. by rewrite E.
Qed.

(** Rounding is monotone. *)
Lemma round_le x y : x <= y -> round x <= round y.
Proof.
  intros Hxy.
  destruct (Qlt_le_dec 0 x) as [Hx|Hx].
  - by apply round_le_pos.
  - destruct (Qlt_le_dec y 0) as [Hy|Hy].
    + assert (H : round (- y) <= round (- x)) by (apply round_le_pos; lra).
      rewrite !round_opp in H. lra.
    + apply Qle_trans with 0.
      * assert (H : 0 <= round (- x)) by (apply round_nonneg; lra).
        rewrite round_opp in H. lra.
      * by apply round_nonneg.
Qed.

Lemma round_comp x y : x == y -> round x == round y.
Proof.
  intros E. apply Qle_antisym; apply round_le; rewrite E; apply Qle_refl.
Qed.

(** Integers below [2^53] are doubles. *)
Lemma round_Z z : (0 <= z < 2 ^ 53)%Z -> round (inject_Z z) == inject_Z z.
Proof.
  intros [Hz0 Hz53].
  destruct (Z.eq_dec z 0%Z) as [->|Hne]; [reflexivity|].
  assert (Hz : (0 < z)%Z) by lia.
  assert (Hq : 0 < inject_Z z).
  { change 0 with (inject_Z 0). by rewrite <- Zlt_Qlt. }
  rewrite (round_pos _ Hq).
  set (j := Z.log2 z).
  destruct (Z.log2_spec z Hz) as [Hj1 Hj2]. fold j in Hj1, Hj2.
  assert (Hj0 : (0 <= j)%Z) by apply Z.log2_nonneg.
  assert (Hj53 : (j < 53)%Z).
  { apply Z.log2_lt_pow2; lia. }
  assert (Ee : exponent (inject_Z z) = j).
  { apply exponent_unique; rewrite exp2_Z by lia.
    - by rewrite <- Zle_Qle.
    - rewrite <- Zlt_Qlt. by rewrite Z.add_1_r. }
  assert (Eu : ulp_exponent (inject_Z z) = (j - 52)%Z).
  { unfold ulp_exponent. rewrite Qabs_of_nonneg by lra. rewrite Ee. lia. }
  rewrite Eu.
  assert (Hinv : exp2 (52 - j) * exp2 (j - 52) == 1).
  { rewrite <- exp2_plus. by replace (52 - j + (j - 52))%Z with 0%Z by lia. }
  pose proof (exp2_pos (j - 52)) as Hu.
  assert (Ediv : inject_Z z / exp2 (j - 52) == inject_Z (z * 2 ^ (52 - j))).
  { rewrite inject_Z_mult, <- exp2_Z by lia.
    apply Qmult_inj_r with (exp2 (j - 52)); [lra|].
    unfold Qdiv. rewrite <- !Qmult_assoc, Hinv.
    rewrite (Qmult_comm (/ _)), Qmult_inv_r by lra. reflexivity. }
  rewrite (nearest_even_comp _ _ Ediv), nearest_even_Z.
  rewrite inject_Z_mult, <- exp2_Z by lia.
  rewrite <- Qmult_assoc, Hinv. ring.
Qed.

Lemma mul_comp x x' y y' : x == x' -> y == y' -> mul x y == mul x' y'.
Proof.
  intros Ex Ey. unfold mul. apply round_comp.
  by rewrite (round_comp _ _ Ex), (round_comp _ _ Ey).
Qed.

(** Multiplication by a positive constant is monotone. *)
Lemma mul_le_l x x' y : 0 <= y -> x <= x' -> mul x y <= mul x' y.
Proof.
  intros Hy Hx. unfold mul. apply round_le.
  apply Qmult_le_compat_r; [by apply round_le | by apply round_nonneg].
Qed.

Lemma mul_Z a b :
  (0 <= a < 2 ^ 53)%Z -> (0 <= b < 2 ^ 53)%Z -> (a * b < 2 ^ 53)%Z ->
  mul (inject_Z a) (inject_Z b) == inject_Z (a * b).
Proof.
  intros Ha Hb Hab. unfold mul.
  rewrite (round_comp (round (inject_Z a) * round (inject_Z b))
             (inject_Z (a * b))).
  - apply round_Z. lia.
  - rewrite (round_Z a), (round_Z b) by done. by rewrite inject_Z_mult.
Qed.

End DoubleFacts.

(** ** Timing *)

Section TimingFacts.
Import JS Timing.
Variable c : Config.

Lemma reconnect_base_floor : (100 <= reconnect_base c)%Q.
Proof. apply Q.le_max_l. Qed.

Lemma reconnect_max_above_base : (reconnect_base c <= reconnect_max c)%Q.
Proof. apply Q.le_max_l. Qed.

(** Seconds clamped to five give at least 5000 milliseconds. *)
Lemma clamped_seconds_floor q : (5000 <= Double.mul (Qmax 5 q) 1000)%Q.
Proof.
  apply Qle_trans with (Double.mul 5 1000); [by vm_compute|].
  apply mul_le_l; [done | apply Q.le_max_l].
Qed.

Lemma report_period_floor : (5000 <= report_period c)%Q.
Proof. apply clamped_seconds_floor. Qed.

Lemma heartbeat_interval_floor : (5000 <= heartbeat_interval c)%Q.
Proof. apply clamped_seconds_floor. Qed.

Lemma heartbeat_period_le_interval :
  (heartbeat_period c <= heartbeat_interval c)%Q.
Proof.
  unfold heartbeat_period, heartbeat_interval, Math_floor.
  eapply Qle_trans; [apply Qfloor_le|].
  apply mul_le_l; [done | apply Q.le_max_r].
Qed.

Lemma pow2_pos n : (0 < pow2 n)%Q.
Proof.
  unfold pow2. change 0%Q with (inject_Z 0). rewrite <- Zlt_Qlt.
  apply Z.pow_pos_nonneg; lia.
Qed.

Lemma pow2_mono n m : (n <= m)%nat -> (pow2 n <= pow2 m)%Q.
Proof.
  intros H. unfold pow2. rewrite <- Zle_Qle.
  apply Z.pow_le_mono_r; lia.
Qed.

Lemma jitter_range random :
  (0 <= random)%Q -> (random < 1)%Q ->
  (0 <= jitter random)%Q /\ (jitter random <= 199)%Q.
Proof.
  intros H0 H1. unfold jitter, Math_floor. split.
  - change 0%Q with (inject_Z 0). rewrite <- Zle_Qle.
    change 0%Z with (Qfloor 0). apply Qfloor_resp_le. lra.
  - change 199%Q with (inject_Z 199). rewrite <- Zle_Qle.
    assert (Qfloor (random * 200) < 200)%Z; [|lia].
    rewrite Zlt_Qlt. eapply Qle_lt_trans; [apply Qfloor_le|].
    change (inject_Z 200) with 200%Q. lra.
Qed.

Lemma backoff_mono n m : (n <= m)%nat -> (backoff c n <= backoff c m)%Q.
Proof.
  intros H. unfold backoff. apply Q.min_le_compat_l.
  unfold Math_floor. rewrite <- Zle_Qle. apply Qfloor_resp_le.
  pose proof reconnect_base_floor. pose proof (pow2_mono _ _ H).
  apply Qmult_le_l; [lra | done].
Qed.

End TimingFacts.

(** The timers of the runtime. *)

Lemma timer_duration_in_range d :
  (1 <= d)%Q -> (d <= TIMEOUT_MAX)%Q -> timer_duration d = JS.Math_floor d.
Proof.
  intros H1%Qle_bool_iff H2%Qle_bool_iff. unfold timer_duration.
  by rewrite H1, H2.
Qed.


Lemma Math_floor_le x y : (x <= y)%Q -> (JS.Math_floor x <= JS.Math_floor y)%Q.
Proof.
  intros H. unfold JS.Math_floor. rewrite <- Zle_Qle. by apply Qfloor_resp_le.
Qed.




(** C10, the clamps that hold: the staleness interval of the heartbeat and
    the reporting period are at least 5000 ms, the backoff base is at
    least 100 ms and the backoff maximum is at least the base. *)
Lemma timing_floors (c : Config) :
  (5000 <= Timing.heartbeat_interval c)%Q
  /\ (5000 <= Timing.report_period c)%Q
  /\ (100 <= Timing.reconnect_base c)%Q
  /\ (Timing.reconnect_base c <= Timing.reconnect_max c)%Q.
Proof.
  auto using heartbeat_interval_floor, report_period_floor,
    reconnect_base_floor, reconnect_max_above_base.
Qed.

(** C10, the heartbeat period: [startHeartbeat] clamps [interval] but arms
    [setInterval] with the unclamped setting, so a heartbeat of one second
    ticks every 1000 ms although the staleness interval is 5000 ms. *)
Theorem C10_heartbeat_period_not_clamped :
  (Timing.heartbeat_period fast_heartbeat == 1000)%Q
  /\ (Timing.heartbeat_interval fast_heartbeat == 5000)%Q
  /\ ~ (5000 <= Timing.heartbeat_period fast_heartbeat)%Q.
Proof.
  repeat split; try reflexivity.
  vm_compute. intros H. apply H. reflexivity.
Qed.

(** ** Connection manager *)

Section ConnFacts.
Import Conn.
Variable config : Config.

(** Evaluate the handlers on a state given by its fields. *)
Ltac eval_handlers :=
  cbv [step on_open on_pong on_close heartbeat_tick
    reconnect_timeout shutdown connectWS startHeartbeat stopHeartbeat
    scheduleReconnect setTimeout wsSend is_open emit set_ws
    set_wsTimerHeartbeat set_wsTimerReconnect set_lastPongAt
    set_reconnectAttempts set_timeouts set_next_handle
    ws wsTimerHeartbeat wsTimerReconnect lastPongAt reconnectAttempts
    timeouts next_handle trace reconnect_timer_inv heartbeat_inv] in *.

Lemma run_snoc s evs e :
  run config s (evs ++ [e]) = step config (run config s evs) e.
Proof. unfold run. by rewrite fold_left_app. Qed.

Lemma scheduleReconnect_inv random s :
  reconnect_timer_inv s ->
  reconnect_timer_inv (scheduleReconnect config random s).
Proof.
  destruct s as [w hb tr lp ra tos nh tc]. eval_handlers.
  destruct tr; [done|]. intros ->. simpl. eauto.
Qed.

Lemma step_reconnect_timer_inv s e :
  reconnect_timer_inv s -> reconnect_timer_inv (step config s e).
Proof.
  destruct s as [w hb tr lp ra tos nh tc].
  destruct e; eval_handlers; try done.
  - by destruct (String.eqb _ _).
  - by destruct w as [[]|], hb.
  - destruct w, hb, tr; try done; intros ->; simpl; eauto.
  - destruct hb; [|done]. destruct w as [[]|]; try done.
    by destruct (_ && _).
  - destruct tr as [h|].
    + intros [d ->]. simpl. destruct (Nat.eqb h handle); simpl; eauto.
      by destruct (String.eqb _ _).
    + by intros ->.
  - by destruct w as [[]|].
  - by destruct hb, w as [[]|].
Qed.

Lemma close_leaves_one_timeout s random :
  reconnect_timer_inv s ->
  length (timeouts (step config s (WsClose random))) = 1%nat.
Proof.
  destruct s as [w hb tr lp ra tos nh tc]. eval_handlers.
  destruct w, hb, tr; try (by intros [d ->]); by intros ->.
Qed.

Lemma open_resets_attempts s now :
  ws s = Some CONNECTING ->
  reconnectAttempts (step config s (WsOpen now)) = 0%nat.
Proof.
  destruct s as [w hb tr lp ra tos nh tc]. eval_handlers.
  intros ->. by destruct hb.
Qed.

Lemma open_elsewhere_is_noop s now :
  ws s <> Some CONNECTING -> step config s (WsOpen now) = s.
Proof.
  destruct s as [w hb tr lp ra tos nh tc]. eval_handlers.
  by destruct w as [[]|].
Qed.

Lemma run_reconnect_timer_inv evs :
  reconnect_timer_inv (run config initial evs).
Proof.
  induction evs as [|e evs IH] using rev_ind; [done|].
  rewrite run_snoc. by apply step_reconnect_timer_inv.
Qed.

Lemma step_attempts s e :
  (forall now, e <> WsOpen now) ->
  (reconnectAttempts s <= reconnectAttempts (step config s e))%nat.
Proof.
  intros Hne. destruct s as [w hb tr lp ra tos nh tc].
  destruct e; eval_handlers; try done.
  - by destruct (String.eqb _ _).
  - by destruct (Hne now).
  - destruct w, hb, tr; lia.
  - destruct hb; [|done]. destruct w as [[]|]; try done.
    by destruct (_ && _).
  - destruct (existsb _ _); [|done]. by destruct (String.eqb _ _).
  - by destruct w as [[]|].
  - by destruct hb, w as [[]|].
Qed.

Lemma attempts_drop_is_open s e :
  (reconnectAttempts (step config s e) < reconnectAttempts s)%nat ->
  (exists now, e = WsOpen now)
  /\ ws s = Some CONNECTING
  /\ reconnectAttempts (step config s e) = 0%nat.
Proof.
  intros H.
  assert (Hopen : exists now, e = WsOpen now).
  { destruct e; eauto;
      match goal with
      | |- exists _, ?e = _ =>
          pose proof (step_attempts s e ltac:(intros ? ?; discriminate)); lia
      end. }
  destruct Hopen as [now ->].
  assert (Hc : ws s = Some CONNECTING).
  { destruct (ws s) as [[]|] eqn:E; try done;
      rewrite (open_elsewhere_is_noop s now) in H by (by rewrite E); lia. }
  eauto using open_resets_attempts.
Qed.



End ConnFacts.

(** C6: in every state the connection manager reaches, whatever the order
    of the events (repeated close events included), at most one reconnect
    timeout is pending; while one is pending [scheduleReconnect] changes
    nothing; no event other than the socket's [open] lowers the attempts
    counter, and a step that lowers it is an [open] on a connecting socket
    and leaves it at zero. *)
Theorem C6_single_reconnect_timer (config : Config) (evs : list Conn.Event) :
  let s := Conn.run config Conn.initial evs in
  (length (Conn.timeouts s) <= 1)%nat
  /\ (forall random : Q,
        Conn.timeouts s <> [] -> Conn.scheduleReconnect config random s = s)
  /\ (forall random : Q,
        length (Conn.timeouts (Conn.step config s (Conn.WsClose random))) = 1%nat)
  /\ (forall e : Conn.Event,
        (Conn.reconnectAttempts (Conn.step config s e)
           < Conn.reconnectAttempts s)%nat ->
        (exists now, e = Conn.WsOpen now)
        /\ Conn.ws s = Some Conn.CONNECTING
        /\ Conn.reconnectAttempts (Conn.step config s e) = 0%nat).
Proof.
  intros s. pose proof (run_reconnect_timer_inv config evs) as Hinv.
  fold s in Hinv. split; [|split; [|split]].
  - unfold reconnect_timer_inv in Hinv.
    destruct (Conn.wsTimerReconnect s); [destruct Hinv as [d ->]|rewrite Hinv];
      simpl; lia.
  - intros random Hne. unfold reconnect_timer_inv in Hinv.
    unfold Conn.scheduleReconnect.
    by destruct (Conn.wsTimerReconnect s).
  - intros random. by apply close_leaves_one_timeout.
  - intros e. apply attempts_drop_is_open.
Qed.

(** Three close events in a row after a failed connection attempt leave one
    pending timeout, and the second and third calls change nothing but the
    counter. *)
Lemma C6_single_reconnect_timer_witness :
  let s := Conn.run fast_heartbeat Conn.initial
             [Conn.Boot; Conn.WsClose 0; Conn.WsClose (1 # 2); Conn.WsClose 0] in
  Conn.timeouts s = [(0%nat, 2000%Q)]
  /\ Conn.reconnectAttempts s = 3%nat
  /\ Conn.scheduleReconnect fast_heartbeat (1 # 3) s = s.
Proof.
  intros s.
  destruct (C6_single_reconnect_timer fast_heartbeat
    [Conn.Boot; Conn.WsClose 0; Conn.WsClose (1 # 2); Conn.WsClose 0])
    as (_ & Hnoop & _).
  split; [reflexivity | split; [reflexivity |]].
  apply Hnoop. discriminate.
Defined.




(** A tick within twice the interval only pings. *)
Lemma heartbeat_tick_fresh (config : Config) (s : Conn.State) (now : Z) :
  Conn.ws s = Some Conn.OPEN ->
  Conn.wsTimerHeartbeat s <> None ->
  (inject_Z (now - Conn.lastPongAt s)
     <= Timing.heartbeat_interval config * 2)%Q ->
  Conn.trace (Conn.step config s (Conn.HeartbeatTick now))
    = Conn.trace s ++ [Conn.Ping]
  /\ Conn.ws (Conn.step config s (Conn.HeartbeatTick now)) = Some Conn.OPEN.
Proof.
  intros Hopen Hhb Hgap. simpl. unfold Conn.heartbeat_tick, Conn.is_open.
  destruct (Conn.wsTimerHeartbeat s); [|done].
  rewrite Hopen. simpl.
  apply Qle_bool_iff in Hgap. rewrite Hgap.
  by rewrite andb_false_r.
Qed.

(** ** Sorting *)

Section SortFacts.
Context {A : Type} (compare : A -> A -> Z).

Lemma sort_insert_perm x l : JS.sort_insert compare x l ≡ₚ x :: l.
Proof.
  induction l as [|y r IH]; simpl; [done|].
  destruct (compare x y <=? 0)%Z; [done|].
  rewrite IH. apply perm_swap.
Qed.

Lemma sort_perm l : JS.sort compare l ≡ₚ l.
Proof.
  induction l as [|x r IH]; simpl; [done|].
  by rewrite sort_insert_perm, IH.
Qed.

Lemma elem_of_sort x l : x ∈ JS.sort compare l <-> x ∈ l.
Proof. by rewrite sort_perm. Qed.

Hypothesis total : forall a b, (compare a b <= 0)%Z \/ (compare b a <= 0)%Z.
Hypothesis trans :
  forall a b c, (compare a b <= 0)%Z -> (compare b c <= 0)%Z ->
                (compare a c <= 0)%Z.

Lemma sort_insert_sorted x l :
  StronglySorted (fun a b => (compare a b <= 0)%Z) l ->
  StronglySorted (fun a b => (compare a b <= 0)%Z)
    (JS.sort_insert compare x l).
Proof.
  induction 1 as [|y r Hr IH Hy]; simpl.
  - repeat constructor.
  - destruct (compare x y <=? 0)%Z eqn:E.
    + apply Z.leb_le in E. constructor; [by constructor|].
      constructor; [done|].
      eapply Forall_impl; [exact Hy|]. intros z Hz. by eapply trans.
    + apply Z.leb_gt in E. constructor; [done|].
      rewrite sort_insert_perm. constructor; [|done].
      destruct (total x y); [lia | done].
Qed.

Lemma sort_sorted l :
  StronglySorted (fun a b => (compare a b <= 0)%Z) (JS.sort compare l).
Proof.
  induction l as [|x r IH]; simpl; [constructor|].
  by apply sort_insert_sorted.
Qed.

End SortFacts.

Lemma compare_code_units_le a b :
  (JS.compare_code_units a b <= 0)%Z <-> a = b \/ String_as_OT.lt a b.
Proof.
  unfold JS.compare_code_units.
  destruct (String.compare a b) eqn:E.
  - apply String_as_OT.cmp_eq in E. split; [auto | lia].
  - apply String_as_OT.cmp_lt in E. split; [auto | lia].
  - split; [lia|]. intros [->|H%String_as_OT.cmp_lt].
    + assert (String.compare b b = Eq) by (by apply String_as_OT.cmp_eq).
      congruence.
    + change String_as_OT.cmp with String.compare in H. congruence.
Qed.

Lemma compare_code_units_total a b :
  (JS.compare_code_units a b <= 0)%Z \/ (JS.compare_code_units b a <= 0)%Z.
Proof.
  unfold JS.compare_code_units. rewrite (String.compare_antisym a b).
  destruct (String.compare b a); simpl; lia.
Qed.

Lemma compare_code_units_trans a b c :
  (JS.compare_code_units a b <= 0)%Z ->
  (JS.compare_code_units b c <= 0)%Z ->
  (JS.compare_code_units a c <= 0)%Z.
Proof.
  rewrite !compare_code_units_le.
  intros [->|Hab] [->|Hbc]; auto.
  right. by eapply String_as_OT.lt_trans.
Qed.

(** ** The slug *)

Lemma is_dash_spec c : is_dash c = true <-> c = "-"%char.
Proof.
  unfold is_dash, JS.code. rewrite N.eqb_eq. split.
  - intros H. rewrite <- (ascii_N_embedding c), H. reflexivity.
  - by intros ->.
Qed.

Lemma dash_is_slug_char c : is_dash c = true -> slug_char c = true.
Proof.
  unfold is_dash, slug_char. intros ->. by rewrite !orb_true_r.
Qed.

Lemma replace_runs_spec t :
  replace_runs false t = concat_strings (map run_text (maximal_runs t))
  /\ replace_runs true t
     = match maximal_runs t with
       | (false, _) :: rest => concat_strings (map run_text rest)
       | l => concat_strings (map run_text l)
       end.
Proof.
  induction t as [|c r [IH1 IH2]]; [done|].
  cbn [replace_runs maximal_runs].
  destruct (slug_char c) eqn:Ec.
  - rewrite IH1.
    destruct (maximal_runs r) as [|[[] run] rest]; simpl; rewrite ?Ec; done.
  - rewrite IH2.
    destruct (maximal_runs r) as [|[[] run] rest]; simpl; rewrite ?Ec; done.
Qed.

Lemma replace_runs_all in_match t :
  JS.all_chars slug_char (replace_runs in_match t) = true.
Proof.
  revert in_match. induction t as [|c r IH]; intros b; [done|].
  simpl. destruct (slug_char c) eqn:Ec; simpl.
  - by rewrite Ec, IH.
  - destruct b; simpl; by rewrite IH.
Qed.

Lemma strip_leading_all p t :
  JS.all_chars p t = true -> JS.all_chars p (strip_leading_dashes t) = true.
Proof.
  induction t as [|c r IH]; [done|]. simpl.
  intros [Hc Hr]%andb_true_iff.
  destruct (is_dash c); [by apply IH|]. simpl. by rewrite Hc, Hr.
Qed.

Lemma strip_trailing_all p t :
  JS.all_chars p t = true -> JS.all_chars p (strip_trailing_dashes t) = true.
Proof.
  induction t as [|c r IH]; [done|]. simpl.
  intros [Hc Hr]%andb_true_iff. specialize (IH Hr).
  destruct (strip_trailing_dashes r) eqn:E.
  - destruct (is_dash c); simpl; [done | by rewrite Hc].
  - simpl in *. by rewrite Hc, IH.
Qed.

Lemma strip_leading_first t :
  first_char (strip_leading_dashes t) <> Some "-"%char.
Proof.
  induction t as [|c r IH]; [done|]. simpl.
  destruct (is_dash c) eqn:E; [done|]. simpl.
  intros [= ->]. by rewrite (proj2 (is_dash_spec _)) in E.
Qed.

Lemma strip_trailing_first t :
  first_char t <> Some "-"%char ->
  first_char (strip_trailing_dashes t) <> Some "-"%char.
Proof.
  destruct t as [|c r]; [done|]. simpl. intros Hc.
  destruct (strip_trailing_dashes r); [|done].
  by destruct (is_dash c).
Qed.

Lemma strip_trailing_last t :
  last_char (strip_trailing_dashes t) <> Some "-"%char.
Proof.
  induction t as [|c r IH]; [done|]. simpl.
  destruct (strip_trailing_dashes r) as [|c' r'] eqn:E.
  - destruct (is_dash c) eqn:Ec; [done|]. simpl.
    intros [= ->]. by rewrite (proj2 (is_dash_spec _)) in Ec.
  - exact IH.
Qed.

(** C2, as stated, fails: the slug is not injective, even on names that
    contain a character outside [[a-z0-9._-]]. *)
Lemma C2_slug_collides :
  "a b" <> "a  b"
  /\ JS.all_chars slug_char "a b" = false
  /\ JS.all_chars slug_char "a  b" = false
  /\ slug "a b" = slug "a  b".
Proof. repeat split; done. Qed.

(** C2, amended: for every service name the slug is the lowercased name
    in which every maximal run of characters outside [[a-z0-9._-]] is
    replaced by one dash and from which the dashes at both ends are
    removed; it consists of characters of [[a-z0-9._-]] only and neither
    starts nor ends with a dash.  (Distinct names may share a slug.) *)
Theorem C2_slug_normalises (s : string) :
  slug s = slug_spec s
  /\ JS.all_chars slug_char (slug s) = true
  /\ first_char (slug s) <> Some "-"%char
  /\ last_char (slug s) <> Some "-"%char.
Proof.
  unfold slug, slug_spec. repeat split.
  - by rewrite (proj1 (replace_runs_spec _)).
  - apply strip_trailing_all, strip_leading_all, replace_runs_all.
  - apply strip_trailing_first, strip_leading_first.
  - apply strip_trailing_last.
Qed.

(** ** Enumerators and snapshot *)

Section EnumeratorFacts.
Variable rt : Runtime.
Variable config : Config.
Variable h : Host.

Lemma filtered_out_false name :
  filtered_out config name = false -> passes_filters config name.
Proof.
  unfold filtered_out, passes_filters, JS.includes.
  intros [Hi He]%orb_false_iff. split.
  - destruct (include config) as [|x l] eqn:E; [by left | right].
    simpl in Hi. apply negb_false_iff in Hi.
    by apply bool_decide_eq_true in Hi.
  - by apply bool_decide_eq_false in He.
Qed.

Lemma systemd_record_inv now sec r :
  systemd_record config h now sec = Some r ->
  filtered_out config (Svc.service r) = false
  /\ Svc.id r = mkId h (Svc.service r)
  /\ JS.endsWith ".service" (Svc.service r) = true.
Proof.
  unfold systemd_record.
  destruct (parse_section sec !! "Id") as [Id|]; [|done].
  destruct (negb (JS.truthy Id) || negb (JS.endsWith ".service" Id)) eqn:E1;
    [done|].
  destruct (filtered_out config Id) eqn:E2; [done|].
  intros [= <-]. simpl.
  apply orb_false_iff in E1 as [_ E1]. apply negb_false_iff in E1. done.
Qed.

Lemma launchd_record_inv now line r :
  launchd_record rt config h now line = Some r ->
  filtered_out config (Svc.service r) = false
  /\ Svc.id r = mkId h (Svc.service r).
Proof.
  unfold launchd_record.
  destruct (negb (JS.truthy (JS.trim line))); [done|].
  destruct (List.last _ _) as [label|]; [|done].
  destruct (negb (JS.truthy label)); [done|].
  destruct (filtered_out config label) eqn:E2; [done|].
  by intros [= <-].
Qed.

Lemma listSystemdServices_inv stdout now r :
  r ∈ listSystemdServices rt config h stdout now ->
  filtered_out config (Svc.service r) = false
  /\ Svc.id r = mkId h (Svc.service r).
Proof.
  unfold listSystemdServices. rewrite elem_of_sort, list_elem_of_omap.
  intros (sec & _ & Hr). apply systemd_record_inv in Hr. tauto.
Qed.

Lemma listLaunchdServices_inv stdout now r :
  r ∈ listLaunchdServices rt config h stdout now ->
  filtered_out config (Svc.service r) = false
  /\ Svc.id r = mkId h (Svc.service r).
Proof.
  unfold listLaunchdServices. rewrite elem_of_sort, list_elem_of_omap.
  intros (line & _ & Hr). by apply launchd_record_inv in Hr.
Qed.

Lemma listDockerContainers_inv stdout now r :
  r ∈ listDockerContainers config h stdout now ->
  Svc.id r = mkId h (Svc.service r).
Proof.
  unfold listDockerContainers.
  destruct (negb _); [by intros ?%elem_of_nil|].
  rewrite list_elem_of_fmap. by intros (l & -> & _).
Qed.

Lemma takeSnapshot_ids o r :
  r ∈ services (takeSnapshot rt config h o) ->
  Svc.id r = mkId h (Svc.service r).
Proof.
  unfold takeSnapshot. simpl. rewrite !concat_app, !elem_of_app.
  intros [H|[H|H]].
  - destruct (isLinux h); simpl in H; [|by apply elem_of_nil in H].
    rewrite app_nil_r in H. by apply listSystemdServices_inv in H as [_ ?].
  - destruct (isMac h); simpl in H; [|by apply elem_of_nil in H].
    rewrite app_nil_r in H. by apply listLaunchdServices_inv in H as [_ ?].
  - destruct (docker_enabled _); simpl in H; [|by apply elem_of_nil in H].
    rewrite app_nil_r in H. by apply listDockerContainers_inv in H.
Qed.

(** The two service-manager enumerators apply the include list and then
    the exclude list to every record they return. *)
Lemma service_managers_filter stdout now r :
  r ∈ listSystemdServices rt config h stdout now
  \/ r ∈ listLaunchdServices rt config h stdout now ->
  passes_filters config (Svc.service r).
Proof.
  intros [H|H]; apply filtered_out_false.
  - by apply listSystemdServices_inv in H as [? _].
  - by apply listLaunchdServices_inv in H as [? _].
Qed.

End EnumeratorFacts.

Lemma mkId_inj h : Inj eq eq (fun name_slug => slug (HOSTNAME h) +:+ ":" +:+ name_slug).
Proof. intros a b H. by do 2 apply String.app_inj in H. Qed.

(** C1, at the failing input: with containers enabled, [nginx.service] on
    the include list and [docker:web] on the exclude list, the container
    enumerator returns the record [docker:web], which is not on the
    include list and is on the exclude list; it applies neither filter. *)
Theorem C1_container_enumerator_skips_filters :
  map Svc.service
    (listDockerContainers docker_filtering web1 "abc123|web|Up 3 hours"
       "2025-01-01T00:00:00.000Z")
  = ["docker:web"]
  /\ include docker_filtering <> []
  /\ ("docker:web" ∉ include docker_filtering)
  /\ ("docker:web" ∈ exclude docker_filtering)
  /\ ~ passes_filters docker_filtering "docker:web".
Proof.
  split; [reflexivity|]. split; [discriminate|].
  assert (Hin : "docker:web" ∈ exclude docker_filtering) by (simpl; set_solver).
  split; [|split; [done|]].
  - simpl. rewrite list_elem_of_singleton. discriminate.
  - by intros [_ Hex].
Qed.



Lemma sorted_head_le {A} (R : A -> A -> Prop) x y l :
  Sorted R (x :: y :: l) -> R x y.
Proof. intros H. apply Sorted_inv in H as [_ H]. by apply HdRel_inv in H. Qed.

(** C4, as stated, fails: the container enumerator returns its records in
    the order of the listing, and the service-manager enumerators order
    theirs by [localeCompare], which a collation that disregards case
    makes differ from the order of the code units. *)
Lemma C4_not_sorted_by_code_units :
  ~ sorted_by_code_units
      (listDockerContainers docker_on web1
         ("1f|web|Up 3 hours" +:+ JS.LF +:+ "2e|api|Up 2 hours") "")
  /\ ~ sorted_by_code_units
         (listSystemdServices case_folding_runtime defaults web1
            ("Id=Bluetooth.service" +:+ JS.LF +:+ JS.LF +:+ "Id=acpid.service")
            "").
Proof.
  split; intros H; apply sorted_head_le in H; vm_compute in H; by apply H.
Qed.

(** C4, amended: whenever [localeCompare] is a total preorder on strings,
    the records returned by each of the two service-manager enumerators
    are ordered by service name under [localeCompare]. *)
Theorem C4_service_managers_sorted
    (rt : Runtime) (config : Config) (h : Host) (stdout now : string) :
  (forall a b : string,
      (localeCompare rt a b <= 0)%Z \/ (localeCompare rt b a <= 0)%Z) ->
  (forall a b c : string,
      (localeCompare rt a b <= 0)%Z -> (localeCompare rt b c <= 0)%Z ->
      (localeCompare rt a c <= 0)%Z) ->
  sorted_by_localeCompare rt (listSystemdServices rt config h stdout now)
  /\ sorted_by_localeCompare rt (listLaunchdServices rt config h stdout now).
Proof.
  intros total trans.
  split; apply (sort_sorted (by_service rt)); unfold by_service; eauto.
Qed.

Lemma C4_service_managers_sorted_witness :
  sorted_by_localeCompare code_unit_runtime
    (listSystemdServices code_unit_runtime defaults web1
       (systemctl_stdout colliding_units) "").
Proof.
  refine (proj1 (C4_service_managers_sorted code_unit_runtime defaults web1
                   (systemctl_stdout colliding_units) "" _ _)).
  - exact compare_code_units_total.
  - exact compare_code_units_trans.
Defined.

(** ** System identity *)

Lemma writeFirstWritable_spec fs paths value :
  match first_writable fs paths with
  | Some p =>
      exists fs',
        FS.writeFileSync fs p (value +:+ JS.LF) owner_only = Some fs'
        /\ writeFirstWritable fs paths value = (Some p, fs')
  | None => writeFirstWritable fs paths value = (None, fs)
  end.
Proof.
  unfold first_writable.
  induction paths as [|p rest IH]; simpl; [done|].
  destruct (FS.writable fs p) eqn:E.
  - destruct (FS.writeFileSync fs p (value +:+ JS.LF) owner_only) eqn:W;
      [eauto|].
    unfold FS.writeFileSync in W. by rewrite E in W.
  - assert (W : FS.writeFileSync fs p (value +:+ JS.LF) owner_only = None)
      by (unfold FS.writeFileSync; by rewrite E).
    rewrite W. exact IH.
Qed.

Lemma derive_is_derived h env fs : derived (fst (derive h env fs)) = true.
Proof.
  unfold derive.
  destruct (match platform h with linux => _ | darwin => _ | _ => _ end)
    as [v|]; [destruct (JS.truthy v)|]; try done;
    by destruct (hash_fallback h env).
Qed.

(** C8, as stated, fails: a resolution from the persisted file writes
    nothing, so the first candidate the agent may write holds no identity
    afterwards; and a file that exists already keeps the mode it was
    created with. *)
Lemma C8_persisted_resolution_writes_nothing :
  (let '(how, id, fs') :=
     initSystemId defaults web1 sample_env fs_with_persisted_id in
   how = FromPersisted /\ id = "abc-123"
   /\ first_writable fs_with_persisted_id (ID_FILE_CANDIDATES sample_env)
      = Some "/opt/tds-svc-agent/.tds-svc-agent.id"
   /\ FS.files fs' !! "/opt/tds-svc-agent/.tds-svc-agent.id" = None)
  /\ (let '(how, id, fs') :=
        initSystemId defaults web1 sample_env fs_with_empty_id_file in
      how = FromPlatform /\ id = "4c4c4544004a"
      /\ FS.files fs' !! "/etc/tds-svc-agent.id"
         = Some {| FS.content := "4c4c4544004a" +:+ JS.LF; FS.mode := 420;
                   FS.readable := true |}
      /\ owner_only <> 420%N).
Proof. vm_compute. repeat split; discriminate. Qed.

(** C8, amended: a resolution from the override or from a persisted file
    leaves the file system as it is.  Every other resolution (platform
    identifier, hash fallback, random fallback) writes the value and a
    line end to the first candidate path that can be written, before the
    value is returned: that file then holds the value, it has mode [0600]
    if the call created it, and no other path changes; when no candidate
    can be written the file system is left as it is. *)
Theorem C8_identity_persistence
    (config : Config) (h : Host) (env : IdentityEnv) (fs : FS.t) :
  let how := fst (fst (initSystemId config h env fs)) in
  let id := snd (fst (initSystemId config h env fs)) in
  let fs' := snd (initSystemId config h env fs) in
  (derived how = false -> fs' = fs)
  /\ (derived how = true ->
      match first_writable fs (ID_FILE_CANDIDATES env) with
      | Some p =>
          exists f,
            FS.files fs' !! p = Some f
            /\ FS.content f = id +:+ JS.LF
            /\ (FS.files fs !! p = None -> FS.mode f = owner_only)
            /\ (forall q, q <> p -> FS.files fs' !! q = FS.files fs !! q)
      | None => fs' = fs
      end).
Proof.
  unfold initSystemId.
  destruct (is_truthy (systemId config)); [by split|].
  destruct (is_truthy (readFirstExisting fs (ID_FILE_CANDIDATES env)));
    [by split|].
  pose proof (derive_is_derived h env fs) as Hd.
  destruct (derive h env fs) as [how id]. simpl in Hd.
  pose proof (writeFirstWritable_spec fs (ID_FILE_CANDIDATES env) id) as Hw.
  destruct (writeFirstWritable fs (ID_FILE_CANDIDATES env) id) as [res fs'].
  simpl. split; [congruence|]. intros _.
  destruct (first_writable fs (ID_FILE_CANDIDATES env)) as [p|];
    [|congruence].
  destruct Hw as (fs1 & Hwrite & [= _ <-]).
  unfold FS.writeFileSync in Hwrite.
  destruct (FS.writable fs p); [|done].
  injection Hwrite as <-. simpl.
  eexists. split; [apply lookup_insert_eq|].
  repeat split.
  - by destruct (FS.files fs !! p).
  - by intros ->.
  - intros q Hq. by apply lookup_insert_ne.
Qed.

Lemma C8_identity_persistence_witness :
  exists f,
    FS.files (snd (initSystemId defaults web1 sample_env fs_fresh))
      !! "/opt/tds-svc-agent/.tds-svc-agent.id" = Some f
    /\ FS.content f = "4c4c4544004a" +:+ JS.LF
    /\ FS.mode f = owner_only.
Proof.
  destruct (C8_identity_persistence defaults web1 sample_env fs_fresh)
    as [_ H].
  destruct (H eq_refl) as (f & Hf & Hc & Hm & _).
  exists f. split; [exact Hf|]. split; [exact Hc|].
  apply Hm. reflexivity.
Defined.

(** ** Remote installer command *)

Lemma substring_all s : substring 0 (String.length s) s = s.
Proof. induction s as [|c r IH]; simpl; by rewrite ?IH. Qed.

Lemma slice_from_suffix n s :
  (n <= String.length s)%nat ->
  exists pre, String.length pre = n /\ s = pre +:+ JS.slice_from n s.
Proof.
  unfold JS.slice_from. revert n.
  induction s as [|c r IH]; intros [|n] Hn; simpl in *; try lia.
  - by exists "".
  - exists "". by rewrite substring_all.
  - destruct (IH n ltac:(lia)) as (pre & Hlen & Heq).
    exists (String c pre). simpl. rewrite Hlen. split; [done|].
    exact (f_equal (String c) Heq).
Qed.

Lemma app_length_string a b :
  String.length (a +:+ b) = (String.length a + String.length b)%nat.
Proof.
  induction a as [|c r IH]; [done|].
  change (S (String.length (r +:+ b)) = S (String.length r + String.length b)).
  by rewrite IH.
Qed.

(** [slice(-n)] keeps a suffix of at most [n] code units. *)
Lemma slice_last_suffix n s :
  (exists pre, s = pre +:+ JS.slice_last n s)
  /\ String.length (JS.slice_last n s) = Nat.min n (String.length s).
Proof.
  unfold JS.slice_last.
  destruct (slice_from_suffix (String.length s - n) s ltac:(lia))
    as (pre & Hlen & Heq).
  split; [eauto|].
  apply (f_equal String.length) in Heq. rewrite app_length_string in Heq. lia.
Qed.

Lemma trim_truthy c r :
  JS.is_space c = false -> JS.truthy (JS.trim (String c r)) = true.
Proof.
  intros Hc. unfold JS.trim. simpl. rewrite Hc. simpl.
  destruct (JS.trimEnd r); by rewrite ?Hc.
Qed.

Lemma trim_truthy_app c pre rest :
  JS.is_space c = false ->
  JS.truthy (JS.trim (String c pre +:+ rest)) = true.
Proof. apply trim_truthy. Qed.

(** C9, as stated, fails: on success the reply carries the standard output
    only; what the script wrote to its error stream is not in it. *)
Lemma C9_success_reply_omits_stderr :
  err run_with_warning <> ""
  /\ fst (handle_runInstall install_path (Some "r1") false run_with_warning)
     = {| ir_id := Some "r1"; ok := true; ir_stdout := Some "";
          error := None |}.
Proof. split; [discriminate | reflexivity]. Qed.

(** C9, amended: for every [runInstall] request whose script exists, when
    the script exits with code zero the reply has [ok = true] and carries
    the captured standard output cut to its last 4000 characters (the
    error stream is not included), and a restart is scheduled exactly when
    it was asked for; when the script exits otherwise the reply has
    [ok = false] and the error text [install.sh failed (code N): ...]
    followed by the error stream, or the standard output when that is
    empty, or the code, trimmed, and nothing is scheduled: the process
    goes on. *)
Theorem C9_install_reply
    (installSh : string) (id : option string) (restart : bool)
    (run : InstallRun) :
  script_exists run = true ->
  let reply := fst (handle_runInstall installSh id restart run) in
  let scheduled := snd (handle_runInstall installSh id restart run) in
  (exit_code run = Some 0%N ->
     reply = {| ir_id := id; ok := true;
                ir_stdout := Some (JS.slice_last 4000 (out run));
                error := None |}
     /\ (exists pre, out run = pre +:+ JS.slice_last 4000 (out run))
     /\ (String.length (JS.slice_last 4000 (out run)) <= 4000)%nat
     /\ scheduled = restart)
  /\ (exit_code run <> Some 0%N ->
     ok reply = false
     /\ ir_stdout reply = None
     /\ error reply
        = Some (JS.trim
                  ("install.sh failed (code " +:+ show_code (exit_code run)
                   +:+ "): "
                   +:+ (if JS.truthy (err run) then err run
                        else if JS.truthy (out run) then out run
                        else show_code (exit_code run))))
     /\ scheduled = false).
Proof.
  intros Hex. unfold handle_runInstall, runLocalInstallSh.
  rewrite Hex. simpl. split.
  - intros ->. simpl.
    destruct (slice_last_suffix 4000 (out run)) as [Hsuf Hlen].
    assert (E : (if JS.truthy (out run) then out run else "") = out run).
    { unfold JS.truthy. by destruct (out run). }
    rewrite E. repeat split; [done | lia].
  - intros Hne.
    assert (E : is_zero (exit_code run) = false).
    { destruct (exit_code run) as [n|]; [|done]. simpl.
      apply N.eqb_neq. congruence. }
    rewrite E. simpl. repeat split.
    by rewrite trim_truthy_app.
Qed.

Lemma C9_install_reply_witness :
  error (fst (handle_runInstall install_path (Some "r1") false run_failing))
  = Some "install.sh failed (code 1): ERROR: Need curl or wget to download.".
Proof.
  destruct (C9_install_reply install_path (Some "r1") false run_failing
              eq_refl) as [_ H].
  destruct (H ltac:(discriminate)) as (_ & _ & He & _).
  rewrite He. reflexivity.
Defined.

(** ** Scenarios of the specification *)

Example systemd_scenario :
  map (fun r => (Svc.service r, Svc.active r, Svc.healthy r))
    (listSystemdServices code_unit_runtime defaults web1 two_units "")
  = [("cups.service", "inactive", false); ("nginx.service", "active", true)].
Proof. reflexivity. Qed.

Example launchd_scenario :
  map (fun r => (Svc.service r, Svc.sub r, Svc.healthy r))
    (listLaunchdServices code_unit_runtime defaults web1 launchctl_listing "")
  = [("com.apple.mdworker", Some "running", true);
     ("com.example.backup", Some "stopped", false)].
Proof. reflexivity. Qed.

Example docker_scenario :
  map (fun r => (Svc.id r, Svc.service r, Svc.healthy r))
    (listDockerContainers docker_on web1 "abc123|web|Up 3 hours" "")
  = [("web1:docker-web", "docker:web", true)].
Proof. reflexivity. Qed.

Example docker_disabled :
  listDockerContainers defaults web1 "abc123|web|Up 3 hours" "" = [].
Proof. reflexivity. Qed.

Example backoff_defaults :
  map (Timing.backoff defaults) [0; 1; 2; 3; 4; 5; 6]%nat
  = [1000; 2000; 4000; 8000; 16000; 30000; 30000]%Q.
Proof. reflexivity. Qed.

Example install_failure_scenario :
  fst (handle_runInstall install_path None false run_failing)
  = {| ir_id := None; ok := false; ir_stdout := None;
       error := Some "install.sh failed (code 1): ERROR: Need curl or wget to download." |}.
Proof. reflexivity. Qed.
(** ** More on the slug *)

Lemma lower_char_idem c : JS.lower_char (JS.lower_char c) = JS.lower_char c.
Proof. destruct c as [[] [] [] [] [] [] [] []]; reflexivity. Qed.

Lemma lower_char_slug_char c : slug_char c = true -> JS.lower_char c = c.
Proof.
  destruct c as [[] [] [] [] [] [] [] []]; intros H;
    first [reflexivity | vm_compute in H; discriminate H].
Qed.

Lemma toLowerCase_idem s : JS.toLowerCase (JS.toLowerCase s) = JS.toLowerCase s.
Proof.
  unfold JS.toLowerCase. induction s as [|c r IH]; [done|].
  cbn [JS.map_chars]. by rewrite lower_char_idem, IH.
Qed.

Lemma toLowerCase_clean s :
  JS.all_chars slug_char s = true -> JS.toLowerCase s = s.
Proof.
  unfold JS.toLowerCase. induction s as [|c r IH]; [done|].
  cbn [JS.map_chars JS.all_chars].
  intros [Hc Hr]%andb_true_iff. by rewrite lower_char_slug_char, IH.
Qed.

Lemma replace_runs_clean b s :
  JS.all_chars slug_char s = true -> replace_runs b s = s.
Proof.
  revert b. induction s as [|c r IH]; intros b; [done|]. simpl.
  intros [Hc Hr]%andb_true_iff. by rewrite Hc, IH.
Qed.

Lemma strip_leading_clean s :
  first_char s <> Some "-"%char -> strip_leading_dashes s = s.
Proof.
  destruct s as [|c r]; [done|]. simpl. intros Hc.
  destruct (is_dash c) eqn:E; [|done].
  apply is_dash_spec in E. by subst.
Qed.

Lemma strip_trailing_clean s :
  last_char s <> Some "-"%char -> strip_trailing_dashes s = s.
Proof.
  induction s as [|c r IH]; [done|]. simpl.
  destruct r as [|c' r'].
  - simpl. intros Hc. destruct (is_dash c) eqn:E; [|done].
    apply is_dash_spec in E. by subst.
  - intros Hl. rewrite IH by done. done.
Qed.

Lemma replace_runs_length b s :
  (String.length (replace_runs b s) <= String.length s)%nat.
Proof.
  revert b. induction s as [|c r IH]; intros b; [done|]. simpl.
  destruct (slug_char c); simpl; [specialize (IH false); lia|].
  destruct b; simpl; specialize (IH true); lia.
Qed.

Lemma strip_leading_length s :
  (String.length (strip_leading_dashes s) <= String.length s)%nat.
Proof.
  induction s as [|c r IH]; [done|]. simpl.
  destruct (is_dash c); simpl; lia.
Qed.

Lemma strip_trailing_length s :
  (String.length (strip_trailing_dashes s) <= String.length s)%nat.
Proof.
  induction s as [|c r IH]; [done|]. simpl.
  destruct (strip_trailing_dashes r); [destruct (is_dash c)|]; simpl in *; lia.
Qed.

(** X1: a name that consists of characters of [[a-z0-9._-]] only and
    neither starts nor ends with a dash is its own slug. *)
Theorem X1_slug_fixes_clean_names (s : string) :
  JS.all_chars slug_char s = true ->
  first_char s <> Some "-"%char ->
  last_char s <> Some "-"%char ->
  slug s = s.
Proof.
  intros Hall Hf Hl. unfold slug.
  by rewrite toLowerCase_clean, replace_runs_clean, strip_leading_clean,
    strip_trailing_clean.
Qed.

Lemma X1_slug_fixes_clean_names_witness :
  slug "nginx-proxy_1.service" = "nginx-proxy_1.service".
Proof.
  apply X1_slug_fixes_clean_names; [reflexivity | discriminate | discriminate].
Defined.

(** X2: the slug is idempotent: a slug is its own slug, so an identifier
    is not changed by being normalised again. *)
Theorem X2_slug_idempotent (s : string) : slug (slug s) = slug s.
Proof.
  assert (Hall : JS.all_chars slug_char (slug s) = true).
  { apply strip_trailing_all, strip_leading_all, replace_runs_all. }
  assert (Hf : first_char (slug s) <> Some "-"%char).
  { apply strip_trailing_first, strip_leading_first. }
  assert (Hl : last_char (slug s) <> Some "-"%char).
  { apply strip_trailing_last. }
  generalize dependent (slug s). intros t Hall Hf Hl. unfold slug.
  by rewrite toLowerCase_clean, replace_runs_clean, strip_leading_clean,
    strip_trailing_clean.
Qed.

(** X3: the slug does not see the case of letters: a name and its
    lowercased form have the same slug, hence the same local and global
    id on every host; and the slug is never longer than the lowercased
    name. *)
Theorem X3_slug_ignores_case (s : string) :
  slug (JS.toLowerCase s) = slug s
  /\ (forall h : Host,
        mkId h (JS.toLowerCase s) = mkId h s
        /\ mkGlobalId h (JS.toLowerCase s) = mkGlobalId h s)
  /\ (String.length (slug s) <= String.length (JS.toLowerCase s))%nat.
Proof.
  assert (E : slug (JS.toLowerCase s) = slug s).
  { unfold slug. by rewrite toLowerCase_idem. }
  split; [exact E|]. split.
  - intros h. unfold mkId, mkGlobalId. by rewrite E.
  - unfold slug.
    pose proof (strip_trailing_length
      (strip_leading_dashes (replace_runs false (JS.toLowerCase s)))).
    pose proof (strip_leading_length (replace_runs false (JS.toLowerCase s))).
    pose proof (replace_runs_length false (JS.toLowerCase s)).
    lia.
Qed.

(** ** More on the enumerators *)

Section RecordFacts.
Variable rt : Runtime.
Variable config : Config.
Variable h : Host.

Lemma systemd_record_shape now sec r :
  systemd_record config h now sec = Some r ->
  stamped h now r
  /\ Svc.platform r = "linux"
  /\ Svc.healthy r = String.eqb (Svc.active r) "active".
Proof.
  unfold systemd_record, stamped.
  destruct (parse_section sec !! "Id") as [Id|]; [|done].
  destruct (negb (JS.truthy Id) || negb (JS.endsWith ".service" Id)); [done|].
  destruct (filtered_out config Id); [done|].
  intros [= <-]. simpl.
  assert (E : (is_value (parse_section sec !! "ActiveState") "active"
               && is_value (parse_section sec !! "SubState") "running"
               || is_value (parse_section sec !! "ActiveState") "active")
              = String.eqb
                  (JS.str_or (parse_section sec !! "ActiveState") "unknown")
                  "active").
  { destruct (parse_section sec !! "ActiveState") as [a|]; simpl; [|done].
    destruct (String.eqb_spec a "active") as [->|Hne]; simpl.
    - by rewrite orb_true_r.
    - unfold JS.truthy. destruct (String.eqb_spec a "") as [->|Hne']; simpl;
        [done|]. symmetry. by apply String.eqb_neq. }
  rewrite E. repeat split; try done.
  by intros ?%String.eqb_eq.
Qed.

Lemma launchd_record_shape now line r :
  launchd_record rt config h now line = Some r ->
  stamped h now r
  /\ Svc.platform r = "darwin"
  /\ JS.truthy (Svc.service r) = true.
Proof.
  unfold launchd_record, stamped.
  destruct (negb (JS.truthy (JS.trim line))); [done|].
  destruct (List.last _ _) as [label|]; [|done].
  destruct (negb (JS.truthy label)) eqn:El; [done|].
  destruct (filtered_out config label); [done|].
  intros [= <-]. simpl. apply negb_false_iff in El.
  repeat split; try done.
  by destruct (JS.truthy _ && negb _ && JS.test_digits _).
Qed.

Lemma docker_record_shape now l :
  stamped h now (docker_record h now l)
  /\ Svc.platform (docker_record h now l) = "docker"
  /\ Svc.healthy (docker_record h now l)
     = String.eqb (Svc.active (docker_record h now l)) "active"
  /\ String.prefix "docker:" (Svc.service (docker_record h now l)) = true.
Proof.
  unfold docker_record, stamped. simpl.
  destruct (JS.test_Up_space _); repeat split; try done.
  all: by destruct (JS.template _).
Qed.

(** Where a record of a snapshot comes from. *)
Lemma takeSnapshot_sources o r :
  r ∈ services (takeSnapshot rt config h o) ->
  (isLinux h = true
   /\ exists sec, systemd_record config h (clock o) sec = Some r)
  \/ (isMac h = true
      /\ exists line, launchd_record rt config h (clock o) line = Some r)
  \/ (docker_enabled (docker config) = true
      /\ exists l, r = docker_record h (clock o) l).
Proof.
  unfold takeSnapshot. simpl. rewrite !concat_app, !elem_of_app.
  intros [H|[H|H]].
  - left. destruct (isLinux h); simpl in H; [|by apply elem_of_nil in H].
    rewrite app_nil_r in H. unfold listSystemdServices in H.
    rewrite elem_of_sort, list_elem_of_omap in H.
    destruct H as (sec & _ & Hr). eauto.
  - right; left.
    destruct (isMac h); simpl in H; [|by apply elem_of_nil in H].
    rewrite app_nil_r in H. unfold listLaunchdServices in H.
    rewrite elem_of_sort, list_elem_of_omap in H.
    destruct H as (line & _ & Hr). eauto.
  - right; right.
    destruct (docker_enabled _) eqn:E; simpl in H; [|by apply elem_of_nil in H].
    rewrite app_nil_r in H. unfold listDockerContainers in H.
    rewrite E in H. simpl in H. rewrite list_elem_of_fmap in H.
    destruct H as (l & -> & _). eauto.
Qed.

End RecordFacts.

Lemma mkGlobalId_inj h :
  Inj eq eq (fun name_slug => SYSTEM_ID h +:+ ":" +:+ name_slug).
Proof. intros a b H. by do 2 apply String.app_inj in H. Qed.

(** X4: every record of a snapshot carries the host name and the system
    identity of the agent and the global id
    [SYSTEM_ID + ":" + slug(serviceName)]; hence the global ids of a
    snapshot are pairwise distinct exactly when its local ids are. *)
Theorem X4_snapshot_records_identified
    (rt : Runtime) (config : Config) (h : Host) (o : Outputs) :
  let snap := takeSnapshot rt config h o in
  Forall (fun r =>
            Svc.host r = HOSTNAME h
            /\ Svc.systemId r = SYSTEM_ID h
            /\ Svc.gid r = SYSTEM_ID h +:+ ":" +:+ slug (Svc.service r))
         (services snap)
  /\ (NoDup (gids snap) <-> NoDup (ids snap)).
Proof.
  intros snap.
  assert (Hst : Forall (stamped h (clock o)) (services snap)).
  { apply Forall_forall. intros r Hr.
    apply takeSnapshot_sources in Hr
      as [(_ & sec & Hr)|[(_ & line & Hr)|(_ & l & ->)]].
    - by apply systemd_record_shape in Hr as [? _].
    - by apply launchd_record_shape in Hr as [? _].
    - apply docker_record_shape. }
  split.
  - eapply Forall_impl; [exact Hst|]. intros r (? & ? & ? & _). done.
  - assert (E1 : gids snap
      = map (fun name_slug => SYSTEM_ID h +:+ ":" +:+ name_slug)
          (service_slugs snap)).
    { unfold gids, service_slugs.
      induction Hst as [|r l (_ & _ & Hr & _) _ IH]; [done|].
      simpl. by rewrite Hr, IH. }
    assert (Hid : Forall (fun r => Svc.id r = mkId h (Svc.service r))
                    (services snap)).
    { apply Forall_forall. intros r Hr. by eapply takeSnapshot_ids. }
    clear Hst.
    assert (E2 : ids snap
      = map (fun name_slug => slug (HOSTNAME h) +:+ ":" +:+ name_slug)
          (service_slugs snap)).
    { unfold ids, service_slugs. induction Hid as [|r l Hr _ IH]; [done|].
      simpl. by rewrite Hr, IH. }
    rewrite E1, E2.
    rewrite (NoDup_fmap _ (service_slugs snap)) by apply mkGlobalId_inj.
    rewrite (NoDup_fmap _ (service_slugs snap)) by apply mkId_inj.
    done.
Qed.

(** X5: a record of a snapshot that is marked healthy has the active state
    [active]; for the records of the Linux service manager and of the
    container runtime the two are equivalent, so the sub-state of a unit
    has no influence on its health. *)
Theorem X5_healthy_means_active
    (rt : Runtime) (config : Config) (h : Host) (o : Outputs) :
  Forall (fun r =>
            (Svc.healthy r = true -> Svc.active r = "active")
            /\ (Svc.platform r <> "darwin" ->
                Svc.active r = "active" -> Svc.healthy r = true))
         (services (takeSnapshot rt config h o)).
Proof.
  apply Forall_forall. intros r Hr.
  apply takeSnapshot_sources in Hr
    as [(_ & sec & Hr)|[(_ & line & Hr)|(_ & l & ->)]].
  - apply systemd_record_shape in Hr as ((_ & _ & _ & _ & Ha) & _ & E).
    split; [done|]. intros _ Hact. rewrite E. by apply String.eqb_eq.
  - apply launchd_record_shape in Hr as ((_ & _ & _ & _ & Ha) & Hp & _).
    split; [done|]. by rewrite Hp.
  - destruct (docker_record_shape h (clock o) l)
      as ((_ & _ & _ & _ & Ha) & _ & E & _).
    split; [done|]. intros _ Hact. rewrite E. by apply String.eqb_eq.
Qed.

(** X6: the platform tag of a record tells its source, and the sources are
    gated: records tagged [linux] exist only on a Linux host and name units
    ending in [.service]; records tagged [darwin] exist only on a macOS
    host and have a non-empty label; records tagged [docker] exist only
    when containers are enabled and their names start with [docker:]. *)
Theorem X6_record_sources
    (rt : Runtime) (config : Config) (h : Host) (o : Outputs) :
  Forall (fun r =>
            (Svc.platform r = "linux" /\ isLinux h = true
             /\ JS.endsWith ".service" (Svc.service r) = true)
            \/ (Svc.platform r = "darwin" /\ isMac h = true
                /\ Svc.service r <> "")
            \/ (Svc.platform r = "docker"
                /\ docker_enabled (docker config) = true
                /\ String.prefix "docker:" (Svc.service r) = true))
         (services (takeSnapshot rt config h o)).
Proof.
  apply Forall_forall. intros r Hr.
  apply takeSnapshot_sources in Hr
    as [(Hl & sec & Hr)|[(Hm & line & Hr)|(Hd & l & ->)]].
  - left. pose proof (systemd_record_inv _ _ _ _ _ Hr) as (_ & _ & He).
    by apply systemd_record_shape in Hr as (_ & Hp & _).
  - right; left.
    apply launchd_record_shape in Hr as (_ & Hp & Ht).
    repeat split; try done. intros E. by rewrite E in Ht.
  - right; right.
    destruct (docker_record_shape h (clock o) l) as (_ & Hp & _ & Hn).
    done.
Qed.

(** X7: the Linux enumerator loses no unit: every section of the output
    whose [Id] ends in [.service] and passes the two filters has a record
    in the result, whatever the comparator does while sorting. *)
Theorem X7_systemd_units_kept
    (rt : Runtime) (config : Config) (h : Host) (stdout now : string)
    (sec name : string) :
  sec ∈ systemd_sections stdout ->
  parse_section sec !! "Id" = Some name ->
  JS.endsWith ".service" name = true ->
  filtered_out config name = false ->
  exists r, r ∈ listSystemdServices rt config h stdout now
            /\ Svc.service r = name.
Proof.
  intros Hsec Hid Hend Hflt.
  assert (Ht : JS.truthy name = true).
  { unfold JS.truthy. destruct name; [done | done]. }
  destruct (systemd_record config h now sec) as [r|] eqn:Hr.
  - exists r. split.
    + unfold listSystemdServices. rewrite elem_of_sort, list_elem_of_omap.
      exists sec. by split.
    + revert Hr. unfold systemd_record. rewrite Hid, Ht, Hend, Hflt. simpl.
      by intros [= <-].
  - exfalso. revert Hr. unfold systemd_record.
    by rewrite Hid, Ht, Hend, Hflt.
Qed.

Lemma X7_systemd_units_kept_witness :
  exists r, r ∈ listSystemdServices code_unit_runtime defaults web1
                  two_units ""
            /\ Svc.service r = "nginx.service".
Proof.
  apply (X7_systemd_units_kept code_unit_runtime defaults web1 two_units ""
           ("Id=nginx.service" +:+ JS.LF
            +:+ "Description=A high performance web server" +:+ JS.LF
            +:+ "ActiveState=active" +:+ JS.LF +:+ "SubState=running")).
  - vm_compute. apply list_elem_of_here.
  - reflexivity.
  - reflexivity.
  - reflexivity.
Defined.

(** ** Decoding command output *)

Lemma append_assoc_char a x r : (a +:+ String x "") +:+ r = a +:+ String x r.
Proof.
  induction a as [|c a IH]; [done|].
  change (String c ((a +:+ String x "") +:+ r) = String c (a +:+ String x r)).
  by rewrite IH.
Qed.

Lemma append_nil_r a : a +:+ "" = a.
Proof.
  induction a as [|c a IH]; [done|].
  change (String c (a +:+ "") = String c a). by rewrite IH.
Qed.

Lemma prefix_nil s : String.prefix "" s = true.
Proof. by destruct s. Qed.

Lemma prefix_char c x r :
  String.prefix (String c "") (String x r) = Ascii.eqb x c.
Proof.
  simpl. destruct (ascii_dec c x) as [->|Hne].
  - by rewrite prefix_nil, Ascii.eqb_refl.
  - symmetry. apply Ascii.eqb_neq. congruence.
Qed.

Lemma lacks_app c a b : lacks c (a +:+ b) = lacks c a && lacks c b.
Proof.
  unfold lacks. induction a as [|x a IH]; [done|].
  change (negb (Ascii.eqb x c)
          && JS.all_chars (fun x => negb (Ascii.eqb x c)) (a +:+ b)
          = negb (Ascii.eqb x c)
            && JS.all_chars (fun x => negb (Ascii.eqb x c)) a
            && JS.all_chars (fun x => negb (Ascii.eqb x c)) b).
  by rewrite IH, andb_assoc.
Qed.

Lemma split_char_lacks c piece s :
  lacks c s = true -> JS.split_from (String c "") 0 piece s = [piece +:+ s].
Proof.
  revert piece. induction s as [|x r IH]; intros piece.
  - intros _. simpl. by rewrite append_nil_r.
  - unfold lacks. cbn [JS.all_chars]. intros [Hx Hr]%andb_true_iff.
    cbn [JS.split_from]. rewrite prefix_char.
    apply negb_true_iff in Hx. rewrite Hx.
    rewrite IH by done. by rewrite append_assoc_char.
Qed.

Lemma split_char_cons c piece s rest :
  lacks c s = true ->
  JS.split_from (String c "") 0 piece (s +:+ String c rest)
  = (piece +:+ s) :: JS.split_from (String c "") 0 "" rest.
Proof.
  revert piece. induction s as [|x r IH]; intros piece.
  - intros _. change ("" +:+ String c rest) with (String c rest).
    cbn [JS.split_from]. rewrite prefix_char, Ascii.eqb_refl.
    by rewrite append_nil_r.
  - unfold lacks. cbn [JS.all_chars]. intros [Hx Hr]%andb_true_iff.
    change (String x r +:+ String c rest) with (String x (r +:+ String c rest)).
    cbn [JS.split_from]. rewrite prefix_char.
    apply negb_true_iff in Hx. rewrite Hx.
    rewrite IH by done. by rewrite append_assoc_char.
Qed.

(** Splitting at a separator undoes joining with it, when no piece
    contains the separator. *)
Lemma split_join c x l :
  Forall (fun s => lacks c s = true) (x :: l) ->
  JS.split (String c "") (JS.join (String c "") (x :: l)) = x :: l.
Proof.
  unfold JS.split. revert x. induction l as [|y l IH]; intros x Hall.
  - apply Forall_cons in Hall as [Hx _]. simpl.
    by rewrite split_char_lacks.
  - apply Forall_cons in Hall as [Hx Hl].
    change (JS.join (String c "") (x :: y :: l))
      with (x +:+ String c (JS.join (String c "") (y :: l))).
    rewrite split_char_cons by done. by rewrite IH.
Qed.

Lemma indexOf_app c a b :
  lacks c a = true ->
  JS.indexOf c (a +:+ String c b) = Some (String.length a).
Proof.
  unfold lacks. induction a as [|x a IH].
  - intros _. simpl. by rewrite Ascii.eqb_refl.
  - cbn [JS.all_chars]. intros [Hx Ha]%andb_true_iff.
    change (String x a +:+ String c b) with (String x (a +:+ String c b)).
    cbn [JS.indexOf String.length]. apply negb_true_iff in Hx. rewrite Hx.
    by rewrite IH.
Qed.

Lemma indexOf_lacks c s : lacks c s = true -> JS.indexOf c s = None.
Proof.
  unfold lacks. induction s as [|x s IH]; [done|].
  cbn [JS.all_chars JS.indexOf]. intros [Hx Hs]%andb_true_iff.
  apply negb_true_iff in Hx. rewrite Hx. by rewrite IH.
Qed.

Lemma slice_to_app a b : JS.slice_to (String.length a) (a +:+ b) = a.
Proof.
  unfold JS.slice_to. induction a as [|x a IH]; [by destruct b|].
  change (String x a +:+ b) with (String x (a +:+ b)). simpl. by rewrite IH.
Qed.

Lemma slice_from_app a b : JS.slice_from (String.length a) (a +:+ b) = b.
Proof.
  unfold JS.slice_from. induction a as [|x a IH].
  - change ("" +:+ b) with b. simpl. rewrite Nat.sub_0_r. apply substring_all.
  - change (String x a +:+ b) with (String x (a +:+ b)). simpl. exact IH.
Qed.

Lemma parse_line (obj : gmap string string) k v :
  is_key k = true ->
  match JS.indexOf "=" (property_line (k, v)) with
  | Some (S i) =>
      set_property (JS.slice_to (S i) (property_line (k, v)))
                   (JS.slice_from (S i + 1) (property_line (k, v))) obj
  | _ => obj
  end = set_property k v obj.
Proof.
  unfold is_key, property_line. simpl.
  intros [[Ht He]%andb_true_iff _]%andb_true_iff.
  change (k +:+ "=" +:+ v) with (k +:+ String "=" v).
  rewrite indexOf_app by done.
  destruct k as [|x k]; [done|]. cbn [String.length].
  change (S (String.length k)) with (String.length (String x k)).
  rewrite slice_to_app.
  replace (String x k +:+ String "=" v) with ((String x k +:+ "=") +:+ v).
  2:{ apply append_assoc_char. }
  assert (El : S (String.length k + 1)
               = String.length (String x k +:+ "=")).
  { rewrite app_length_string. reflexivity. }
  rewrite El. by rewrite slice_from_app.
Qed.

Lemma fold_set_property_rev
    (kvs : list (string * string)) (m : gmap string string) :
  fold_left (fun obj kv => set_property (fst kv) (snd kv) obj) kvs m
  = list_to_map (rev (List.filter stored kvs)) ∪ m.
Proof.
  revert m. induction kvs as [|[k v] kvs IH]; intros m.
  - simpl. by rewrite (left_id_L ∅ (∪)).
  - cbn [fold_left List.filter fst snd]. rewrite IH.
    unfold set_property, stored. cbn [fst].
    destruct (String.eqb k "__proto__"); cbn [negb]; [done|].
    cbn [rev]. rewrite list_to_map_app. simpl.
    by rewrite insert_empty, <- (assoc_L (∪)), <- insert_union_singleton_l.
Qed.

(** X8: a section of [key=value] lines is decoded into the map of its
    pairs, the last line winning for a repeated key; values may contain
    [=]; a line whose key is [__proto__] stores nothing.  (Keys are
    non-empty and contain neither [=] nor a line end, values contain no
    line end.) *)
Theorem X8_parse_section_decodes (kvs : list (string * string)) :
  Forall (fun kv => is_key (fst kv) = true /\ lacks "010" (snd kv) = true)
         kvs ->
  parse_section (JS.join JS.LF (map property_line kvs))
  = list_to_map (rev (List.filter stored kvs)).
Proof.
  intros Hall. unfold parse_section.
  assert (Hfold : forall m,
    fold_left
      (fun (obj : gmap string string) line =>
         match JS.indexOf "=" line with
         | Some (S i) =>
             set_property (JS.slice_to (S i) line)
                          (JS.slice_from (S i + 1) line) obj
         | _ => obj
         end) (map property_line kvs) m
    = fold_left (fun obj kv => set_property (fst kv) (snd kv) obj) kvs m).
  { induction Hall as [|[k v] l [Hk _] _ IH]; intros m; [done|].
    cbn [map fold_left]. rewrite parse_line by done. apply IH. }
  destruct kvs as [|kv kvs]; [done|].
  unfold JS.LF. cbn [map] in Hfold |- *. rewrite split_join.
  - rewrite Hfold, fold_set_property_rev. by rewrite (right_id_L ∅ (∪)).
  - change (Forall (fun s => lacks "010" s = true)
              (map property_line (kv :: kvs))).
    apply Forall_fmap. eapply Forall_impl; [exact Hall|].
    intros [k v] [Hk Hv]. unfold property_line. simpl in *.
    apply andb_true_iff in Hk as [_ Hk].
    rewrite !lacks_app, Hk, Hv. done.
Qed.

Lemma X8_parse_section_decodes_witness :
  let obj :=
    parse_section
      (JS.join JS.LF
         (map property_line
            [("Id", "nginx.service"); ("Description", "a=b");
             ("__proto__", "x"); ("Id", "x.service")])) in
  obj !! "Id" = Some "x.service" /\ obj !! "__proto__" = None.
Proof.
  intros obj. unfold obj. rewrite X8_parse_section_decodes.
  - split; reflexivity.
  - repeat constructor.
Defined.

(** X9: a listing line [id|name|status] whose three fields contain no [|]
    gives the record named [docker:name], described as [Container id],
    with the status text as sub-state, healthy exactly when the status
    contains [Up] (in any case) followed by white space. *)
Theorem X9_docker_line_decoded
    (h : Host) (now id name status : string) :
  lacks "|" id = true -> lacks "|" name = true -> lacks "|" status = true ->
  let r := docker_record h now (id +:+ "|" +:+ name +:+ "|" +:+ status) in
  Svc.service r = "docker:" +:+ name
  /\ Svc.description r = "Container " +:+ id
  /\ Svc.sub r = Some status
  /\ Svc.healthy r = JS.test_Up_space status
  /\ Svc.id r = mkId h ("docker:" +:+ name).
Proof.
  intros Hi Hn Hs. unfold docker_record.
  pose proof (split_join "|" id [name; status]) as E.
  change (JS.join "|" [id; name; status])
    with (id +:+ "|" +:+ name +:+ "|" +:+ status) in E.
  rewrite E by (repeat constructor; done). done.
Qed.

Lemma X9_docker_line_decoded_witness :
  Svc.service (docker_record web1 "" ("abc123|web|Up 3 hours")) = "docker:web".
Proof.
  refine (proj1 (X9_docker_line_decoded web1 "" "abc123" "web" "Up 3 hours"
                   _ _ _)); reflexivity.
Defined.

(** X10: a listing line without any [|] has no name and no status: its
    record is named [docker:undefined], is described by the whole line,
    has no sub-state and is not healthy. *)
Theorem X10_docker_line_without_fields (h : Host) (now l : string) :
  lacks "|" l = true ->
  let r := docker_record h now l in
  Svc.service r = "docker:undefined"
  /\ Svc.description r = "Container " +:+ l
  /\ Svc.sub r = None
  /\ Svc.healthy r = false
  /\ Svc.active r = "inactive".
Proof.
  intros Hl. unfold docker_record, JS.split.
  rewrite split_char_lacks by done. done.
Qed.

Lemma X10_docker_line_without_fields_witness :
  Svc.service (docker_record web1 "" "CONTAINER") = "docker:undefined".
Proof.
  refine (proj1 (X10_docker_line_without_fields web1 "" "CONTAINER" _)).
  reflexivity.
Defined.

(** ** More on the connection manager *)

Lemma interval_balance_app tr1 tr2 :
  interval_balance (tr1 ++ tr2)
  = (interval_balance tr1 + interval_balance tr2)%Z.
Proof.
  induction tr1 as [|a r IH]; simpl; [lia|].
  destruct a; lia.
Qed.

Section MoreConnFacts.
Import Conn.
Variable config : Config.

Ltac eval_handlers :=
  cbv [step on_open on_pong on_close heartbeat_tick
    reconnect_timeout shutdown connectWS startHeartbeat stopHeartbeat
    scheduleReconnect setTimeout wsSend is_open emit set_ws
    set_wsTimerHeartbeat set_wsTimerReconnect set_lastPongAt
    set_reconnectAttempts set_timeouts set_next_handle
    ws wsTimerHeartbeat wsTimerReconnect lastPongAt reconnectAttempts
    timeouts next_handle trace] in *.

Lemma run_app s evs1 evs2 :
  run config s (evs1 ++ evs2) = run config (run config s evs1) evs2.
Proof. unfold run. apply fold_left_app. Qed.

(** Without a url no socket is created and only timeouts are set. *)
Lemma step_without_url s e :
  config_ws_url config = "" ->
  ws s = None /\ wsTimerHeartbeat s = None
  /\ forallb is_SetTimeout (trace s) = true ->
  ws (step config s e) = None /\ wsTimerHeartbeat (step config s e) = None
  /\ forallb is_SetTimeout (trace (step config s e)) = true.
Proof.
  intros Hurl. destruct s as [w hb tr lp ra tos nh tc].
  destruct e; eval_handlers; rewrite ?Hurl; simpl;
    intros (-> & -> & Ht); try done.
  - destruct tr; simpl; [done|].
    by rewrite forallb_app, Ht.
  - destruct (existsb _ _); done.
Qed.

Lemma step_interval_balance s e :
  interval_balance (trace s)
  = match wsTimerHeartbeat s with Some _ => 1%Z | None => 0%Z end ->
  interval_balance (trace (step config s e))
  = match wsTimerHeartbeat (step config s e) with
    | Some _ => 1%Z | None => 0%Z
    end.
Proof.
  destruct s as [w hb tr lp ra tos nh tc].
  destruct e; eval_handlers; intros Hb.
  - destruct (String.eqb _ _); simpl; rewrite ?interval_balance_app; simpl; lia.
  - destruct w as [[]|], hb; simpl;
      rewrite ?interval_balance_app; simpl; lia.
  - done.
  - destruct w, hb, tr; simpl; rewrite ?interval_balance_app; simpl; lia.
  - done.
  - destruct hb; [|done]. destruct w as [[]|]; simpl; try done.
    destruct (_ && _); simpl; rewrite ?interval_balance_app; simpl; lia.
  - destruct (existsb _ _); [|done].
    destruct (String.eqb _ _); simpl; rewrite ?interval_balance_app; simpl; lia.
  - destruct w as [[]|]; simpl; rewrite ?interval_balance_app; simpl; lia.
  - destruct hb, w as [[]|]; simpl; rewrite ?interval_balance_app; simpl; lia.
Qed.

(** The delay of an attempt after the first close: at least the capped
    backoff of attempt 1, at most the maximum and the jitter. *)
Lemma delay_range ra random :
  (0 <= random)%Q -> (random < 1)%Q ->
  (Timing.backoff config 1 <= Timing.delay config (S ra) random)%Q
  /\ (Timing.delay config (S ra) random
      <= Timing.reconnect_max config + 199)%Q.
Proof.
  intros H0 H1. unfold Timing.delay.
  pose proof (backoff_mono config 1 (S ra) ltac:(lia)).
  pose proof (jitter_range random H0 H1) as [? ?].
  assert (Timing.backoff config (S ra) <= Timing.reconnect_max config)%Q
    by apply Q.le_min_l.
  split; lra.
Qed.

Lemma step_timeouts_delay s e :
  random_ok e = true ->
  Forall (fun t => (Timing.backoff config 1 <= snd t)%Q
                   /\ (snd t <= Timing.reconnect_max config + 199)%Q)
         (timeouts s) ->
  Forall (fun t => (Timing.backoff config 1 <= snd t)%Q
                   /\ (snd t <= Timing.reconnect_max config + 199)%Q)
         (timeouts (step config s e)).
Proof.
  intros Hr. destruct s as [w hb tr lp ra tos nh tc].
  destruct e; eval_handlers; simpl in Hr; try done.
  - by destruct (String.eqb _ _).
  - by destruct w as [[]|], hb.
  - apply andb_true_iff in Hr as [Hr0 Hr1].
    apply Qle_bool_iff in Hr0.
    assert (Hr1' : (random < 1)%Q).
    { apply Qnot_le_lt. intros Hc%Qle_bool_iff. by rewrite Hc in Hr1. }
    intros Hall.
    pose proof (delay_range ra random Hr0 Hr1') as Hd.
    destruct w, hb, tr; simpl; try done;
      (apply Forall_app; split; [done|]);
      (apply Forall_cons; split; [exact Hd | constructor]).
  - destruct hb; [|done]. destruct w as [[]|]; try done.
    by destruct (_ && _).
  - intros Hall. destruct (existsb _ _); [|done].
    assert (Forall (fun t => (Timing.backoff config 1 <= snd t)%Q
                             /\ (snd t <= Timing.reconnect_max config + 199)%Q)
              (List.filter (fun t => negb (Nat.eqb (fst t) handle)) tos)).
    { apply Forall_forall. intros t [Ht _]%list_elem_of_In%filter_In.
      rewrite Forall_forall in Hall. by apply Hall, list_elem_of_In. }
    by destruct (String.eqb _ _).
  - by destruct w as [[]|].
  - by destruct hb, w as [[]|].
Qed.

Lemma step_quiet s e :
  is_WsOpen e = false ->
  ws s <> Some OPEN /\ wsTimerHeartbeat s = None
  /\ forallb is_quiet (trace s) = true ->
  ws (step config s e) <> Some OPEN
  /\ wsTimerHeartbeat (step config s e) = None
  /\ forallb is_quiet (trace (step config s e)) = true.
Proof.
  intros He. destruct s as [w hb tr lp ra tos nh tc].
  intros H. cbn [ws wsTimerHeartbeat trace] in H.
  destruct H as (Hw & -> & Ht).
  destruct e; eval_handlers.
  - destruct (String.eqb _ _); simpl; rewrite ?forallb_app, ?Ht; done.
  - done.
  - done.
  - destruct w, tr; simpl; rewrite ?forallb_app, ?Ht; done.
  - done.
  - done.
  - destruct (existsb _ _); [|done].
    destruct (String.eqb _ _); simpl; rewrite ?forallb_app, ?Ht; done.
  - destruct w as [[]|]; simpl; rewrite ?forallb_app, ?Ht; done.
  - destruct w as [[]|]; simpl; rewrite ?forallb_app, ?Ht; done.
Qed.

Lemma step_counts_close s e :
  is_WsOpen e = false ->
  reconnectAttempts (step config s e)
  = (reconnectAttempts s + if is_WsClose e then 1 else 0)%nat.
Proof.
  intros He. destruct s as [w hb tr lp ra tos nh tc].
  destruct e; eval_handlers; simpl.
  - destruct (String.eqb _ _); simpl; lia.
  - done.
  - lia.
  - destruct w, hb, tr; simpl; lia.
  - lia.
  - destruct hb; [|simpl; lia]. destruct w as [[]|]; simpl; try lia.
    destruct (_ && _); simpl; lia.
  - destruct (existsb _ _); [|simpl; lia].
    destruct (String.eqb _ _); simpl; lia.
  - destruct w as [[]|]; simpl; lia.
  - destruct hb, w as [[]|]; simpl; lia.
Qed.

Lemma close_pending s random :
  reconnect_timer_inv s ->
  exists h d, timeouts (step config s (WsClose random)) = [(h, d)].
Proof.
  intros Hinv.
  pose proof (close_leaves_one_timeout config s random Hinv) as Hlen.
  destruct (timeouts (step config s (WsClose random))) as [|[h d] [|? ?]];
    try done. eauto.
Qed.

Lemma reconnect_timeout_fires s h d :
  config_ws_url config <> "" ->
  timeouts s = [(h, d)] ->
  ws (step config s (ReconnectTimeout h)) = Some CONNECTING
  /\ timeouts (step config s (ReconnectTimeout h)) = []
  /\ wsTimerReconnect (step config s (ReconnectTimeout h)) = None.
Proof.
  intros Hurl%String.eqb_neq. destruct s as [w hb tr lp ra tos nh tc].
  cbn [timeouts]. intros ->. eval_handlers. simpl.
  rewrite Nat.eqb_refl. simpl. by rewrite Hurl.
Qed.

Lemma open_connects s now :
  ws s = Some CONNECTING ->
  ws (step config s (WsOpen now)) = Some OPEN
  /\ reconnectAttempts (step config s (WsOpen now)) = 0%nat
  /\ lastPongAt (step config s (WsOpen now)) = now
  /\ timeouts (step config s (WsOpen now)) = timeouts s
  /\ wsTimerReconnect (step config s (WsOpen now)) = wsTimerReconnect s
  /\ wsTimerHeartbeat (step config s (WsOpen now))
     = Some (Timing.heartbeat_period config)
  /\ List.last (trace (step config s (WsOpen now))) NewWebSocket
     = Send "hello".
Proof.
  destruct s as [w hb tr lp ra tos nh tc]. cbn [ws]. intros ->.
  eval_handlers. destruct hb; simpl; by rewrite ?last_last.
Qed.

End MoreConnFacts.

(** X11: when no url is configured the agent never creates a socket: in
    every run the socket variable stays empty, no heartbeat timer is armed
    and nothing but reconnect timeouts is ever requested. *)
Theorem X11_no_url_no_connection (config : Config) (evs : list Conn.Event) :
  config_ws_url config = "" ->
  let s := Conn.run config Conn.initial evs in
  Conn.ws s = None
  /\ Conn.wsTimerHeartbeat s = None
  /\ forallb is_SetTimeout (Conn.trace s) = true.
Proof.
  intros Hurl. induction evs as [|e evs IH] using rev_ind; [done|].
  simpl. rewrite run_snoc. by apply step_without_url.
Qed.

Lemma X11_no_url_no_connection_witness :
  Conn.ws (Conn.run defaults Conn.initial
             [Conn.Boot; Conn.WsClose 0; Conn.ReconnectTimeout 0]) = None.
Proof.
  refine (proj1 (X11_no_url_no_connection defaults
                   [Conn.Boot; Conn.WsClose 0; Conn.ReconnectTimeout 0] _)).
  reflexivity.
Defined.

(** X12: heartbeat timers do not leak: in every run the interval timers
    armed so far exceed the ones cleared by one when [wsTimerHeartbeat]
    holds a timer and by none otherwise. *)
Theorem X12_heartbeat_timer_balance (config : Config) (evs : list Conn.Event) :
  let s := Conn.run config Conn.initial evs in
  interval_balance (Conn.trace s)
  = match Conn.wsTimerHeartbeat s with Some _ => 1%Z | None => 0%Z end.
Proof.
  induction evs as [|e evs IH] using rev_ind; [done|].
  simpl. rewrite run_snoc. by apply step_interval_balance.
Qed.

Lemma backoff_floor (config : Config) (n : nat) :
  (100 <= Timing.backoff config n)%Q.
Proof.
  unfold Timing.backoff. apply Q.min_glb.
  - pose proof (reconnect_base_floor config).
    pose proof (reconnect_max_above_base config). lra.
  - unfold JS.Math_floor. change 100%Q with (inject_Z 100).
    rewrite <- Zle_Qle. change 100%Z with (Qfloor 100).
    apply Qfloor_resp_le.
    pose proof (reconnect_base_floor config).
    pose proof (pow2_mono 0 n ltac:(lia)) as Hp.
    change (JS.pow2 0) with 1%Q in Hp.
    apply Qle_trans with (Timing.reconnect_base config * 1)%Q; [lra|].
    apply Qmult_le_l; [lra | done].
Qed.


(** X13: the attempts counter is incremented before the delay is computed,
    so every pending reconnect timer is armed for at least the capped
    backoff of attempt 1, [min(max, floor(2 * base))], in whole
    milliseconds: the undoubled base delay is never used.  This holds
    when the configured maximum and the jitter stay within the longest
    duration the timers of the runtime accept; the timer is then armed
    for the whole milliseconds of the delay as computed. *)
Theorem X13_reconnect_timer_at_least_doubled
    (config : Config) (evs : list Conn.Event) :
  (Timing.reconnect_max config + 199 <= TIMEOUT_MAX)%Q ->
  forallb random_ok evs = true ->
  Forall (fun t =>
            (JS.Math_floor (Timing.backoff config 1)
               <= timer_duration (snd t))%Q
            /\ timer_duration (snd t) = JS.Math_floor (snd t))
         (Conn.timeouts (Conn.run config Conn.initial evs)).
Proof.
  intros Hmax Hr.
  assert (Hinv : Forall
    (fun t => (Timing.backoff config 1 <= snd t)%Q
              /\ (snd t <= Timing.reconnect_max config + 199)%Q)
    (Conn.timeouts (Conn.run config Conn.initial evs))).
  { revert Hr. induction evs as [|e evs IH] using rev_ind; [by constructor|].
    rewrite forallb_app. simpl. rewrite andb_true_r.
    intros [H1 H2]%andb_true_iff. rewrite run_snoc.
    by apply step_timeouts_delay; [|apply IH]. }
  eapply Forall_impl; [exact Hinv|]. intros t [Hlo Hhi].
  pose proof (backoff_floor config 1).
  rewrite timer_duration_in_range by lra.
  split; [by apply Math_floor_le | done].
Qed.

Lemma X13_reconnect_timer_at_least_doubled_witness :
  Forall (fun t => (2000 <= timer_duration (snd t))%Q
                   /\ timer_duration (snd t) = JS.Math_floor (snd t))
         (Conn.timeouts (Conn.run fast_heartbeat Conn.initial
                           [Conn.Boot; Conn.WsClose (1 # 4)])).
Proof.
  apply (X13_reconnect_timer_at_least_doubled fast_heartbeat
           [Conn.Boot; Conn.WsClose (1 # 4)]).
  - by vm_compute.
  - reflexivity.
Defined.

(** X14: before the first [open] event nothing is sent: the socket is not
    open, no heartbeat timer is armed, and the trace holds no send, ping,
    terminate or interval request. *)
Theorem X14_silent_before_open (config : Config) (evs : list Conn.Event) :
  forallb (fun e => negb (is_WsOpen e)) evs = true ->
  let s := Conn.run config Conn.initial evs in
  Conn.ws s <> Some Conn.OPEN
  /\ Conn.wsTimerHeartbeat s = None
  /\ forallb is_quiet (Conn.trace s) = true.
Proof.
  induction evs as [|e evs IH] using rev_ind; [done|].
  rewrite forallb_app. simpl. rewrite andb_true_r.
  intros [H1 H2%negb_true_iff]%andb_true_iff. rewrite run_snoc.
  by apply step_quiet; [|apply IH].
Qed.

Lemma X14_silent_before_open_witness :
  forallb is_quiet
    (Conn.trace (Conn.run fast_heartbeat Conn.initial
                   [Conn.Boot; Conn.WsSend "snapshot"; Conn.HeartbeatTick 5;
                    Conn.WsClose 0; Conn.Shutdown])) = true.
Proof.
  refine (proj2 (proj2 (X14_silent_before_open fast_heartbeat
    [Conn.Boot; Conn.WsSend "snapshot"; Conn.HeartbeatTick 5;
     Conn.WsClose 0; Conn.Shutdown] _))).
  reflexivity.
Defined.

(** X15: between two [open] events the attempts counter counts the close
    events exactly: after any events other than [open] it has grown by the
    number of [close] events among them. *)
Theorem X15_attempts_count_closes
    (config : Config) (s : Conn.State) (evs : list Conn.Event) :
  forallb (fun e => negb (is_WsOpen e)) evs = true ->
  Conn.reconnectAttempts (Conn.run config s evs)
  = (Conn.reconnectAttempts s + length (List.filter is_WsClose evs))%nat.
Proof.
  induction evs as [|e evs IH] using rev_ind; [simpl; lia|].
  rewrite forallb_app. simpl. rewrite andb_true_r.
  intros [H1 H2%negb_true_iff]%andb_true_iff.
  rewrite run_snoc, step_counts_close, IH by done.
  rewrite List.filter_app, length_app. simpl.
  destruct (is_WsClose e); simpl; lia.
Qed.

Lemma X15_attempts_count_closes_witness :
  Conn.reconnectAttempts
    (Conn.run fast_heartbeat Conn.initial
       [Conn.Boot; Conn.WsClose 0; Conn.ReconnectTimeout 0; Conn.WsError;
        Conn.WsClose 0]) = 2%nat.
Proof.
  exact (X15_attempts_count_closes fast_heartbeat Conn.initial
    [Conn.Boot; Conn.WsClose 0; Conn.ReconnectTimeout 0; Conn.WsError;
     Conn.WsClose 0] eq_refl).
Defined.

(** X16: the reconnect loop restores a clean session: from every state the
    agent reaches, a close leaves one pending timeout; when that timeout
    fires and the new socket opens, the socket is open, the attempts
    counter is zero, the liveness timestamp is the time of the open, no
    reconnect timeout is pending, the heartbeat timer is armed anew and
    the last message sent is [hello]. *)
Theorem X16_reconnect_cycle
    (config : Config) (evs : list Conn.Event) (random : Q) (now : Z) :
  config_ws_url config <> "" ->
  let s1 := Conn.run config Conn.initial (evs ++ [Conn.WsClose random]) in
  exists h d,
    Conn.timeouts s1 = [(h, d)]
    /\ let s3 := Conn.run config s1
                   [Conn.ReconnectTimeout h; Conn.WsOpen now] in
       Conn.ws s3 = Some Conn.OPEN
       /\ Conn.reconnectAttempts s3 = 0%nat
       /\ Conn.lastPongAt s3 = now
       /\ Conn.timeouts s3 = []
       /\ Conn.wsTimerReconnect s3 = None
       /\ Conn.wsTimerHeartbeat s3 = Some (Timing.heartbeat_period config)
       /\ List.last (Conn.trace s3) Conn.NewWebSocket = Conn.Send "hello".
Proof.
  intros Hurl. simpl. rewrite run_snoc.
  destruct (close_pending config (Conn.run config Conn.initial evs) random
              (run_reconnect_timer_inv config evs)) as (h & d & Ht).
  exists h, d. split; [done|].
  destruct (reconnect_timeout_fires config _ h d Hurl Ht) as (Hc & Ht2 & Hr2).
  destruct (open_connects config _ now Hc) as (? & ? & ? & E1 & E2 & ? & ?).
  rewrite Ht2 in E1. rewrite Hr2 in E2. done.
Qed.

Lemma X16_reconnect_cycle_witness :
  exists h d,
    Conn.timeouts (Conn.run fast_heartbeat Conn.initial
                     ([Conn.Boot; Conn.WsOpen 5] ++ [Conn.WsClose 0]))
    = [(h, d)].
Proof.
  destruct (X16_reconnect_cycle fast_heartbeat [Conn.Boot; Conn.WsOpen 5] 0 9)
    as (h & d & H & _).
  - discriminate.
  - eauto.
Defined.

(** ** More on the system identity *)

Lemma trimEnd_app_LF t : JS.trimEnd (t +:+ JS.LF) = JS.trimEnd t.
Proof.
  induction t as [|c r IH]; [done|].
  change (String c r +:+ JS.LF) with (String c (r +:+ JS.LF)).
  cbn [JS.trimEnd]. by rewrite IH.
Qed.

Lemma trim_app_LF s : JS.trim (s +:+ JS.LF) = JS.trim s.
Proof.
  unfold JS.trim. induction s as [|c r IH]; [done|].
  change (String c r +:+ JS.LF) with (String c (r +:+ JS.LF)).
  cbn [JS.trimStart]. destruct (JS.is_space c); [exact IH|].
  change (String c (r +:+ JS.LF)) with (String c r +:+ JS.LF).
  apply trimEnd_app_LF.
Qed.

Lemma readFirstExisting_only fs paths p f :
  p ∈ paths ->
  FS.files fs !! p = Some f ->
  FS.readable f = true ->
  (forall q, q ∈ paths -> q <> p -> FS.files fs !! q = None) ->
  readFirstExisting fs paths = Some (JS.trim (FS.content f)).
Proof.
  intros Hin Hf Hr Hothers.
  induction paths as [|q rest IH]; [by apply elem_of_nil in Hin|].
  cbn [readFirstExisting]. unfold FS.existsSync, FS.readFileSync.
  destruct (decide (q = p)) as [->|Hne].
  - rewrite Hf, Hr. rewrite bool_decide_eq_true_2 by eauto. done.
  - rewrite (Hothers q) by (done || apply list_elem_of_here).
    rewrite bool_decide_eq_false_2 by (by intros [? ?]).
    apply IH.
    + apply elem_of_cons in Hin as [->|Hin]; done.
    + intros q' Hq'. apply Hothers. by apply list_elem_of_further.
Qed.

Lemma first_writable_elem fs paths p :
  first_writable fs paths = Some p -> p ∈ paths /\ FS.writable fs p = true.
Proof.
  unfold first_writable. intros [Hin Hw]%find_some.
  split; [by apply list_elem_of_In | done].
Qed.

Lemma readFirstExisting_none fs paths :
  (forall q, q ∈ paths -> FS.files fs !! q = None) ->
  readFirstExisting fs paths = None.
Proof.
  induction paths as [|q rest IH]; [done|]. intros Hnone.
  cbn [readFirstExisting]. unfold FS.existsSync.
  rewrite (Hnone q) by apply list_elem_of_here.
  rewrite bool_decide_eq_false_2 by (by intros [? ?]).
  apply IH. intros q' Hq'. apply Hnone. by apply list_elem_of_further.
Qed.

Lemma derive_truthy h env fs :
  JS.truthy (randomUUID env) = true ->
  JS.truthy (snd (derive h env fs)) = true.
Proof.
  intros Hr. unfold derive.
  assert (Hh : forall v, hash_fallback h env = Some v -> JS.truthy v = true).
  { unfold hash_fallback. destruct (interface_macs env); [|done].
    by intros v [= <-]. }
  destruct (match platform h with linux => _ | darwin => _ | _ => _ end)
    as [v|]; [destruct (JS.truthy v) eqn:Ev; [done|]|];
    destruct (hash_fallback h env) as [v'|]; simpl; eauto.
Qed.

(** X17: the identity is stable across a restart: when no candidate file
    exists yet and some candidate can be written, a derived identity
    (taken to be a trimmed, non-empty value) is stored so that the next
    resolution on the resulting file system returns the same value from
    the persisted file and changes nothing. *)
Theorem X17_identity_stable_after_restart
    (config : Config) (h : Host) (env : IdentityEnv) (fs : FS.t) (p : string) :
  let how := fst (fst (initSystemId config h env fs)) in
  let id := snd (fst (initSystemId config h env fs)) in
  let fs' := snd (initSystemId config h env fs) in
  derived how = true ->
  (forall q, q ∈ ID_FILE_CANDIDATES env -> FS.files fs !! q = None) ->
  first_writable fs (ID_FILE_CANDIDATES env) = Some p ->
  JS.trim id = id ->
  JS.truthy id = true ->
  initSystemId config h env fs' = (FromPersisted, id, fs').
Proof.
  unfold initSystemId.
  destruct (is_truthy (systemId config)) eqn:Eo; [done|].
  destruct (is_truthy (readFirstExisting fs (ID_FILE_CANDIDATES env)));
    [done|].
  destruct (derive h env fs) as [how id].
  pose proof (writeFirstWritable_spec fs (ID_FILE_CANDIDATES env) id) as Hw.
  destruct (writeFirstWritable fs (ID_FILE_CANDIDATES env) id) as [res fs'].
  simpl. intros _ Hnone Hfw Htrim Htruthy. rewrite Hfw in Hw.
  destruct Hw as (fs1 & Hwrite & [= _ <-]).
  apply first_writable_elem in Hfw as [Hin Hwr].
  unfold FS.writeFileSync in Hwrite. rewrite Hwr, (Hnone p Hin) in Hwrite.
  injection Hwrite as <-.
  erewrite readFirstExisting_only; [| exact Hin | apply lookup_insert_eq
                                    | done |].
  - simpl. rewrite trim_app_LF, Htrim. simpl. by rewrite Htruthy.
  - intros q Hq Hne. simpl. rewrite lookup_insert_ne by done. by apply Hnone.
Qed.

Lemma X17_identity_stable_after_restart_witness :
  initSystemId defaults web1 sample_env
    (snd (initSystemId defaults web1 sample_env fs_fresh))
  = (FromPersisted, "4c4c4544004a",
     snd (initSystemId defaults web1 sample_env fs_fresh)).
Proof.
  apply (X17_identity_stable_after_restart defaults web1 sample_env fs_fresh
           "/opt/tds-svc-agent/.tds-svc-agent.id").
  - reflexivity.
  - intros q Hq. vm_compute in Hq.
    repeat (apply elem_of_cons in Hq as [->|Hq]; [reflexivity|]).
    by apply elem_of_nil in Hq.
  - reflexivity.
  - reflexivity.
  - reflexivity.
Defined.

(** X18: without an override the resolution never returns an empty
    identity, provided the random identifier is not empty: a persisted or
    platform value is used only when it is not empty, and the hash
    fallback starts with [sha256-]. *)
Theorem X18_identity_not_empty
    (config : Config) (h : Host) (env : IdentityEnv) (fs : FS.t) :
  is_truthy (systemId config) = false ->
  JS.truthy (randomUUID env) = true ->
  JS.truthy (snd (fst (initSystemId config h env fs))) = true.
Proof.
  intros Ho Hr. unfold initSystemId. rewrite Ho.
  destruct (readFirstExisting fs (ID_FILE_CANDIDATES env)) as [v|] eqn:Ep;
    simpl.
  - destruct (JS.truthy v) eqn:Ev; [done|].
    pose proof (derive_truthy h env fs Hr) as Hd.
    destruct (derive h env fs) as [how id].
    by destruct (writeFirstWritable fs (ID_FILE_CANDIDATES env) id).
  - pose proof (derive_truthy h env fs Hr) as Hd.
    destruct (derive h env fs) as [how id].
    by destruct (writeFirstWritable fs (ID_FILE_CANDIDATES env) id).
Qed.

Lemma X18_identity_not_empty_witness :
  JS.truthy (snd (fst (initSystemId defaults web1 sample_env
                         fs_with_empty_id_file))) = true.
Proof.
  apply X18_identity_not_empty; reflexivity.
Defined.

Lemma filter_perm {A} (f : A -> bool) (l1 l2 : list A) :
  l1 ≡ₚ l2 -> List.filter f l1 ≡ₚ List.filter f l2.
Proof.
  induction 1 as [|x l1 l2 _ IH|x y l|l1 l2 l3 _ IH1 _ IH2]; simpl.
  - done.
  - destruct (f x); [by constructor | done].
  - destruct (f x), (f y); try done. apply perm_swap.
  - by etrans.
Qed.

Lemma sorted_perm_unique {A} (R : A -> A -> Prop) (l1 l2 : list A) :
  (forall a b, R a b -> R b a -> a = b) ->
  StronglySorted R l1 -> StronglySorted R l2 -> l1 ≡ₚ l2 -> l1 = l2.
Proof.
  intros Hanti Hs1. revert l2.
  induction Hs1 as [|x l1 Hs1 IH Hx]; intros l2 Hs2 Hp.
  - by apply Permutation_nil in Hp.
  - destruct Hs2 as [|y l2 Hs2 Hy].
    + symmetry in Hp. by apply Permutation_nil_cons in Hp.
    + assert (x = y) as <-.
      { assert (Hx2 : x ∈ y :: l2) by (rewrite <- Hp; apply list_elem_of_here).
        assert (Hy1 : y ∈ x :: l1) by (rewrite Hp; apply list_elem_of_here).
        apply elem_of_cons in Hx2 as [?|Hx2]; [done|].
        apply elem_of_cons in Hy1 as [?|Hy1]; [done|].
        rewrite Forall_forall in Hx, Hy. apply Hanti; auto. }
      f_equal. apply IH; [done|]. by apply Permutation_cons_inv in Hp.
Qed.

Lemma compare_code_units_antisym a b :
  (JS.compare_code_units a b <= 0)%Z ->
  (JS.compare_code_units b a <= 0)%Z -> a = b.
Proof.
  rewrite !compare_code_units_le. intros [->|Hab] [Hba|Hba]; try done.
  exfalso. eapply String_as_OT.lt_not_eq; [|reflexivity].
  by eapply String_as_OT.lt_trans.
Qed.

(** X19: the hash fallback does not depend on the order in which the
    interfaces are listed, nor on interfaces whose hardware address is
    empty or all zeros: the addresses are filtered and sorted before they
    are hashed. *)
Theorem X19_hash_fallback_order_independent
    (h : Host) (env : IdentityEnv) (macs1 macs2 : list string) :
  macs1 ≡ₚ macs2 ->
  hash_fallback h (with_macs env macs1) = hash_fallback h (with_macs env macs2)
  /\ hash_fallback h (with_macs env ("00:00:00:00:00:00" :: "" :: macs1))
     = hash_fallback h (with_macs env macs1).
Proof.
  intros Hp. split; [|done].
  set (keep := fun m : string =>
                 JS.truthy m && negb (String.eqb m "00:00:00:00:00:00")).
  assert (E : JS.sort JS.compare_code_units (List.filter keep macs1)
              = JS.sort JS.compare_code_units (List.filter keep macs2)).
  { apply (sorted_perm_unique
             (fun a b => (JS.compare_code_units a b <= 0)%Z)).
    - apply compare_code_units_antisym.
    - apply sort_sorted;
        [apply compare_code_units_total | apply compare_code_units_trans].
    - apply sort_sorted;
        [apply compare_code_units_total | apply compare_code_units_trans].
    - rewrite !sort_perm. by apply filter_perm. }
  unfold hash_fallback. simpl. fold keep. by rewrite E.
Qed.

Lemma X19_hash_fallback_order_independent_witness :
  hash_fallback web1
    (with_macs sample_env ["52:54:00:12:34:56"; "02:42:ac:11:00:02"])
  = hash_fallback web1
      (with_macs sample_env ["02:42:ac:11:00:02"; "52:54:00:12:34:56"]).
Proof.
  refine (proj1 (X19_hash_fallback_order_independent web1 sample_env
    ["52:54:00:12:34:56"; "02:42:ac:11:00:02"]
    ["02:42:ac:11:00:02"; "52:54:00:12:34:56"] _)).
  apply perm_swap.
Defined.

(** ** Dispatcher, metrics, configuration and restart *)

Global Instance RestartAction_eq_dec : EqDecision RestartAction.
Proof. solve_decision. Defined.

(** X20: the state of the socket decides only what is sent: with the
    socket closed [handleMessage] sends nothing, and it still replaces the
    cached snapshot, runs the installer and schedules the restart exactly
    as it does with the socket open. *)
Theorem X20_closed_socket_only_drops_sends
    (rt : Runtime) (config : Config) (h : Host)
    (i : DispatchInput) (lastSnapshot : option Snapshot) (p : Parsed) :
  let closed := {| cmd_outputs := cmd_outputs i; date_now := date_now i;
                   installSh_path := installSh_path i;
                   install_run := install_run i; socket_open := false |} in
  snd (fst (handleMessage rt config h closed lastSnapshot p)) = []
  /\ fst (fst (handleMessage rt config h closed lastSnapshot p))
     = fst (fst (handleMessage rt config h i lastSnapshot p))
  /\ snd (handleMessage rt config h closed lastSnapshot p)
     = snd (handleMessage rt config h i lastSnapshot p).
Proof.
  unfold handleMessage. simpl.
  destruct p as [|[data|]]; [done| |done].
  destruct (msg_type data) as [type|]; [|done].
  repeat (destruct (String.eqb type _); [done|]).
  destruct (String.eqb type _); [|done].
  by destruct (handle_runInstall _ _ _ _).
Qed.

(** X21: a frame that does not parse, that is not an object with a type,
    or whose type is none of [ping], [getSnapshot], [refresh] and
    [runInstall] is dropped: nothing is sent, the cache keeps its value
    and no restart is scheduled. *)
Theorem X21_unrecognised_frames_dropped
    (rt : Runtime) (config : Config) (h : Host)
    (i : DispatchInput) (lastSnapshot : option Snapshot) (p : Parsed) :
  recognised p = false ->
  handleMessage rt config h i lastSnapshot p = (lastSnapshot, [], false).
Proof.
  unfold recognised, known_type, handleMessage.
  destruct p as [|[data|]]; [done| |done].
  destruct (msg_type data) as [type|]; [|done].
  intros [[[-> ->]%orb_false_iff ->]%orb_false_iff ->]%orb_false_iff. done.
Qed.

Lemma X21_unrecognised_frames_dropped_witness :
  handleMessage code_unit_runtime defaults web1
    {| cmd_outputs := colliding_units; date_now := 7;
       installSh_path := install_path; install_run := run_failing;
       socket_open := true |}
    None
    (Json (Some {| msg_type := Some "getsnapshot"; msg_id := Some "r1";
                   msg_restart := true |}))
  = (None, [], false).
Proof. apply X21_unrecognised_frames_dropped. reflexivity. Defined.

(** X22: replies agree with the cache: every snapshot message a call of
    [handleMessage] sends carries the snapshot that the call has just
    taken and cached, and every [ok] message carries the time stamp of
    that snapshot and the number of its services. *)
Theorem X22_replies_carry_cached_snapshot
    (rt : Runtime) (config : Config) (h : Host)
    (i : DispatchInput) (lastSnapshot : option Snapshot) (p : Parsed) :
  let cache := fst (fst (handleMessage rt config h i lastSnapshot p)) in
  Forall (fun m =>
            match m with
            | SnapshotMsg _ systemId host snap =>
                cache = Some snap
                /\ snap = takeSnapshot rt config h (cmd_outputs i)
                /\ systemId = SYSTEM_ID h /\ host = HOSTNAME h
            | OkMsg _ stamp count =>
                exists snap, cache = Some snap
                             /\ stamp = takenAt snap
                             /\ count = length (services snap)
            | _ => True
            end)
         (snd (fst (handleMessage rt config h i lastSnapshot p))).
Proof.
  unfold handleMessage. simpl.
  destruct p as [|[data|]]; [by constructor| |by constructor].
  destruct (msg_type data) as [type|]; [|by constructor].
  destruct (String.eqb type "ping");
    [destruct (socket_open i); by repeat constructor|].
  destruct (String.eqb type "getSnapshot");
    [destruct (socket_open i); by repeat constructor|].
  destruct (String.eqb type "refresh").
  { destruct (socket_open i); [|by constructor]. simpl.
    repeat constructor; eauto. }
  destruct (String.eqb type "runInstall"); [|by constructor].
  destruct (handle_runInstall _ _ _ _).
  destruct (socket_open i); by repeat constructor.
Qed.

Lemma find_first {A} (f : A -> bool) (l : list A) (x : A) :
  List.find f l = Some x ->
  f x = true
  /\ exists pre post, l = pre ++ x :: post /\ forallb (fun y => negb (f y)) pre = true.
Proof.
  induction l as [|y l IH]; [done|]. simpl.
  destruct (f y) eqn:Ey.
  - intros [= ->]. split; [done|]. by exists [], l.
  - intros H. destruct (IH H) as (Hx & pre & post & -> & Hpre).
    split; [done|]. exists (y :: pre), post. simpl. by rewrite Ey.
Qed.

(** X23: [GET /services/:id] answers from the cached snapshot once one
    has been taken, returns the first record of the snapshot that has the
    requested id, and answers 404 exactly when no record has it; so of two
    records that share an id only the first can be fetched. *)
Theorem X23_get_service_first_match
    (rt : Runtime) (config : Config) (h : Host) (o : Outputs)
    (lastSnapshot : option Snapshot) (id : string) :
  let snap := fst (get_service rt config h o lastSnapshot id) in
  (forall cached, lastSnapshot = Some cached ->
                  JS.truthy (takenAt cached) = true -> snap = cached)
  /\ match snd (get_service rt config h o lastSnapshot id) with
     | Some r =>
         Svc.id r = id
         /\ exists pre post,
              services snap = pre ++ r :: post
              /\ Forall (fun s => Svc.id s <> id) pre
     | None => Forall (fun s => Svc.id s <> id) (services snap)
     end.
Proof.
  unfold get_service. simpl. split.
  - intros cached -> Ht. unfold ensure_snapshot. by rewrite Ht.
  - destruct (List.find _ _) as [r|] eqn:E.
    + apply find_first in E as (Hr & pre & post & -> & Hpre).
      split; [by apply String.eqb_eq|]. exists pre, post. split; [done|].
      apply Forall_forall. intros s Hs Heq.
      rewrite forallb_forall in Hpre.
      specialize (Hpre s ltac:(by apply list_elem_of_In)).
      apply negb_true_iff, String.eqb_neq in Hpre. done.
    + apply Forall_forall. intros s Hs Heq.
      eapply find_none in E; [|by apply list_elem_of_In].
      simpl in E. by apply String.eqb_neq in E.
Qed.

Lemma X23_get_service_first_match_witness :
  exists r,
    snd (get_service code_unit_runtime defaults web1 colliding_units None
           "web1:foo-a.service") = Some r
    /\ Svc.id r = "web1:foo-a.service".
Proof.
  destruct (X23_get_service_first_match code_unit_runtime defaults web1
              colliding_units None "web1:foo-a.service") as [_ H].
  destruct (snd (get_service code_unit_runtime defaults web1 colliding_units
                   None "web1:foo-a.service")) as [r|] eqn:E.
  - exists r. split; [reflexivity | exact (proj1 H)].
  - vm_compute in E. discriminate E.
Defined.

Lemma fold_insert_lookup_ne (l : list Svc.t) (acc : gmap (string * string * string) Z) k :
  Forall (fun s => series_of s <> k) l ->
  fold_left (fun acc s => <[series_of s := health_value s]> acc) l acc !! k
  = acc !! k.
Proof.
  revert acc. induction l as [|s l IH]; intros acc Hall; [done|].
  apply Forall_cons in Hall as [Hs Hl]. simpl.
  rewrite IH by done. by apply lookup_insert_ne.
Qed.

Lemma fold_insert_is_Some (l : list Svc.t) (acc : gmap (string * string * string) Z) k :
  is_Some (acc !! k) ->
  is_Some (fold_left (fun acc s => <[series_of s := health_value s]> acc) l acc
           !! k).
Proof.
  revert acc. induction l as [|s l IH]; intros acc Hk; [done|].
  simpl. apply IH. destruct (decide (series_of s = k)) as [->|Hne].
  - rewrite lookup_insert_eq. eauto.
  - by rewrite lookup_insert_ne.
Qed.

(** X24: [updateMetrics] never removes a series: every label set that had
    a value keeps one, and a service that is no longer in the snapshot
    keeps the health value it had, so a vanished service goes on being
    reported with its last state; the count gauge of the host becomes the
    number of services. *)
Theorem X24_metrics_keep_stale_series
    (h : Host) (g : Metrics) (snapshot : Snapshot) :
  exists g', updateMetrics h (Some g) snapshot = Some g'
    /\ tds_services_count g' !! HOSTNAME h
       = Some (Z.of_nat (length (services snapshot)))
    /\ (forall k, is_Some (tds_service_healthy g !! k) ->
                  is_Some (tds_service_healthy g' !! k))
    /\ (forall k, Forall (fun s => series_of s <> k) (services snapshot) ->
                  tds_service_healthy g' !! k = tds_service_healthy g !! k).
Proof.
  eexists. split; [reflexivity|]. simpl. split; [apply lookup_insert_eq|].
  split.
  - intros k. apply fold_insert_is_Some.
  - intros k. apply fold_insert_lookup_ne.
Qed.

(** X25: after [updateMetrics] the health gauge of a record of the
    snapshot holds 1 or 0 according to that record, provided no later
    record of the snapshot has the same host, service and platform (of
    records with the same labels the last one wins). *)
Theorem X25_metrics_reflect_health
    (h : Host) (g : Metrics) (snapshot : Snapshot)
    (pre post : list Svc.t) (r : Svc.t) :
  services snapshot = pre ++ r :: post ->
  Forall (fun s => series_of s <> series_of r) post ->
  exists g', updateMetrics h (Some g) snapshot = Some g'
    /\ tds_service_healthy g' !! series_of r
       = Some (if Svc.healthy r then 1%Z else 0%Z).
Proof.
  intros E Hpost. eexists. split; [reflexivity|]. simpl.
  rewrite E, fold_left_app. simpl.
  rewrite fold_insert_lookup_ne by done. apply lookup_insert_eq.
Qed.

Lemma X25_metrics_reflect_health_witness :
  exists g',
    updateMetrics web1
      (Some {| tds_services_count := ∅; tds_service_healthy := ∅ |})
      (takeSnapshot code_unit_runtime defaults web1 colliding_units)
    = Some g'
    /\ tds_service_healthy g' !! ("web1", "foo@a.service", "linux") = Some 1%Z.
Proof.
  pose (snap := takeSnapshot code_unit_runtime defaults web1 colliding_units).
  assert (exists r0 r1, services snap = [r0] ++ r1 :: []
            /\ series_of r1 = ("web1", "foo@a.service", "linux")
            /\ Svc.healthy r1 = true) as (r0 & r1 & E & Es & Eh).
  { eexists _, _. split; [reflexivity|]. split; reflexivity. }
  destruct (X25_metrics_reflect_health web1
              {| tds_services_count := ∅; tds_service_healthy := ∅ |}
              snap [r0] [] r1 E ltac:(constructor)) as (g' & Hg & Hl).
  exists g'. split; [exact Hg|]. by rewrite Es, Eh in Hl.
Defined.

(** X26: the configuration comes from the first candidate file that
    parses: missing and unparsable candidates before it are skipped, the
    candidates after it are not consulted, and each top-level key of that
    file replaces the default as a whole (a file that gives a [reporting]
    object without [sendOnConnect] does not keep the default of that
    field); with no parsable candidate the configuration stays as it is. *)
Theorem X26_first_parsable_config_wins
    (c : Config) (skipped rest : list ConfigFile) (l : Loaded) :
  forallb (fun f => negb (parses f)) skipped = true ->
  load_config c (skipped ++ Parses l :: rest) = merge_config c l
  /\ load_config c skipped = c
  /\ (forall r, l_reporting l = Some r ->
                reporting (load_config c (skipped ++ Parses l :: rest)) = r)
  /\ (l_reporting l = None ->
      reporting (load_config c (skipped ++ Parses l :: rest)) = reporting c).
Proof.
  intros Hs.
  assert (E : forall tail, load_config c (skipped ++ tail) = load_config c tail).
  { induction skipped as [|f skipped IH]; intros tail; [done|].
    simpl in Hs. apply andb_true_iff in Hs as [Hf Hs].
    destruct f; try done; simpl; by apply IH. }
  split; [by rewrite E|]. split.
  - rewrite <- (app_nil_r skipped). by rewrite E.
  - rewrite E. simpl. split; [by intros r ->|by intros ->].
Qed.

Lemma X26_first_parsable_config_wins_witness :
  sendOnConnect
    (reporting
       (load_config defaults
          ([Missing; Invalid]
           ++ Parses {| l_include := None; l_exclude := None; l_ws := None;
                        l_reporting :=
                          Some {| intervalSec := Some 10%Q;
                                  sendOnConnect := false |};
                        l_docker := None; l_http_enabled := None;
                        l_systemId := None |}
           :: [Parses {| l_include := Some ["x"]; l_exclude := None;
                         l_ws := None; l_reporting := None; l_docker := None;
                         l_http_enabled := None; l_systemId := None |}])))
  = false.
Proof.
  destruct (X26_first_parsable_config_wins defaults [Missing; Invalid]
    [Parses {| l_include := Some ["x"]; l_exclude := None;
               l_ws := None; l_reporting := None; l_docker := None;
               l_http_enabled := None; l_systemId := None |}]
    {| l_include := None; l_exclude := None; l_ws := None;
       l_reporting :=
         Some {| intervalSec := Some 10%Q; sendOnConnect := false |};
       l_docker := None; l_http_enabled := None; l_systemId := None |}
    eq_refl) as (_ & _ & H & _).
  by rewrite (H _ eq_refl).
Defined.

(** X27: [restartSelf] never starts a second copy beside a service
    manager: it relaunches the process only when it asked no service
    manager, it then always exits, and it returns without exiting only
    when the service manager took the restart ([systemctl restart]
    succeeded on a Linux host with systemd, or a launchd label is set on a
    macOS host). *)
Theorem X27_restart_is_exclusive (h : Host) (env : RestartEnv) :
  let actions := restartSelf h env in
  (Relaunch ∈ actions ->
     forallb (fun a => negb (asks_manager a)) actions = true
     /\ List.last actions Relaunch = Exit)
  /\ (Exit ∉ actions ->
     (isLinux h = true /\ systemd_present env = true
      /\ systemctl_code env = 0%N /\ actions = [SystemctlRestart])
     \/ (isMac h = true /\ JS.truthy (LAUNCHD_LABEL env) = true
         /\ actions = [LaunchctlKickstart (LAUNCHD_LABEL env)])).
Proof.
  assert (Hnot : forall (a : RestartAction) l,
             forallb (fun b => negb (bool_decide (a = b))) l = true ->
             a ∈ l -> False).
  { intros a l Hl Hin. rewrite forallb_forall in Hl.
    specialize (Hl a ltac:(by apply list_elem_of_In)).
    by rewrite bool_decide_eq_true_2 in Hl. }
  unfold restartSelf.
  destruct (isLinux h && systemd_present env) eqn:E1.
  - apply andb_true_iff in E1 as [El Es].
    destruct (systemctl_code env =? 0)%N eqn:Ec; simpl.
    + apply N.eqb_eq in Ec. split; [|by left].
      intros H. by apply Hnot in H.
    + split; intros H; [by apply Hnot in H|].
      exfalso. apply H. apply list_elem_of_further, list_elem_of_here.
  - destruct (isMac h && JS.truthy (LAUNCHD_LABEL env)) eqn:E2.
    + apply andb_true_iff in E2 as [Em Et]. split; [|by right].
      intros H. by apply Hnot in H.
    + destruct (spawn_throws env); simpl.
      * split; intros H; [by apply Hnot in H|].
        exfalso. apply H. apply list_elem_of_here.
      * split; [done|]. intros H.
        exfalso. apply H. apply list_elem_of_further, list_elem_of_here.
Qed.

Lemma X27_restart_is_exclusive_witness :
  List.last
    (restartSelf web1 {| systemd_present := false; systemctl_code := 0;
                         LAUNCHD_LABEL := ""; spawn_throws := false |})
    Relaunch = Exit.
Proof.
  destruct (X27_restart_is_exclusive web1
    {| systemd_present := false; systemctl_code := 0;
       LAUNCHD_LABEL := ""; spawn_throws := false |}) as [H _].
  apply H. apply list_elem_of_here.
Defined.

(** ** More on the installer reply and the heartbeat period *)

(** X28: an [installResult] reply is well formed and truthful: it says
    [ok] exactly when the script exists and exited with code zero; an [ok]
    reply carries an output and no error, any other reply carries a
    non-empty error text and no output; and a restart is scheduled exactly
    when it was asked for and the reply says [ok]. *)
Theorem X28_install_reply_shape
    (installSh : string) (id : option string) (restart : bool)
    (run : InstallRun) :
  let reply := fst (handle_runInstall installSh id restart run) in
  let scheduled := snd (handle_runInstall installSh id restart run) in
  ok reply = script_exists run && is_zero (exit_code run)
  /\ scheduled = restart && ok reply
  /\ ir_id reply = id
  /\ (if ok reply
      then error reply = None /\ is_Some (ir_stdout reply)
      else ir_stdout reply = None
           /\ exists e, error reply = Some e /\ JS.truthy e = true).
Proof.
  unfold handle_runInstall, runLocalInstallSh.
  destruct (script_exists run); simpl.
  - destruct (is_zero (exit_code run)); simpl.
    + rewrite andb_true_r. repeat split; eauto.
    + rewrite andb_false_r. repeat split. rewrite trim_truthy_app by done.
      eexists. split; [reflexivity|]. by apply trim_truthy_app.
  - rewrite andb_false_r. repeat split. eauto.
Qed.

(** X29: for a configured heartbeat of at least five seconds whose
    staleness interval is within the longest duration the timers of the
    runtime accept, the heartbeat timer ticks with the staleness interval
    rounded down to whole milliseconds as its period; for a whole number
    of seconds both are exactly that number of seconds in milliseconds.
    Hence the period falls short of the interval by a millisecond or more
    only for settings below five seconds or beyond that longest
    duration. *)
Theorem X29_heartbeat_period_floors_interval (c : Config) :
  (5 <= JS.num_or (heartbeatSec (ws c)) 25)%Q ->
  (Timing.heartbeat_interval c <= TIMEOUT_MAX)%Q ->
  (Timing.heartbeat_period c == JS.Math_floor (Timing.heartbeat_interval c))%Q
  /\ timer_duration (Timing.heartbeat_period c) = Timing.heartbeat_period c
  /\ (forall k : Z,
        (JS.num_or (heartbeatSec (ws c)) 25 == inject_Z k)%Q ->
        (Timing.heartbeat_interval c == inject_Z (k * 1000))%Q
        /\ (Timing.heartbeat_period c == inject_Z (k * 1000))%Q).
Proof.
  intros Hq Hmax.
  assert (Ei : (Timing.heartbeat_interval c
                == Double.mul (JS.num_or (heartbeatSec (ws c)) 25) 1000)%Q).
  { unfold Timing.heartbeat_interval. apply mul_comp; [|reflexivity].
    by apply Q.max_r. }
  assert (Ep : (Timing.heartbeat_period c
                == JS.Math_floor (Timing.heartbeat_interval c))%Q).
  { unfold Timing.heartbeat_period, JS.Math_floor.
    by rewrite (Qfloor_comp _ _ Ei). }
  split; [exact Ep|]. split.
  - assert (H1 : (1 <= Timing.heartbeat_period c)%Q).
    { rewrite Ep. apply Qle_trans with (JS.Math_floor 5000); [done|].
      apply Math_floor_le, heartbeat_interval_floor. }
    assert (H2 : (Timing.heartbeat_period c <= TIMEOUT_MAX)%Q).
    { pose proof (heartbeat_period_le_interval c). lra. }
    rewrite timer_duration_in_range by done.
    unfold Timing.heartbeat_period, JS.Math_floor. by rewrite Qfloor_Z.
  - intros k Ek.
    assert (Hk5 : (5 <= k)%Z).
    { rewrite Zle_Qle. rewrite <- Ek. exact Hq. }
    assert (Ek' : (Timing.heartbeat_interval c
                   == Double.mul (inject_Z k) (inject_Z 1000))%Q).
    { rewrite Ei. by apply mul_comp. }
    assert (Hk : (k <= 2147483)%Z).
    { destruct (Z_le_gt_dec k 2147483) as [|Hgt]; [done|]. exfalso.
      assert (Hlo : (Double.mul (inject_Z 2147484) (inject_Z 1000)
                     <= Double.mul (inject_Z k) (inject_Z 1000))%Q).
      { apply mul_le_l; [done|]. rewrite <- Zle_Qle. lia. }
      rewrite (mul_Z 2147484 1000) in Hlo by lia.
      rewrite <- Ek' in Hlo.
      assert (TIMEOUT_MAX < inject_Z (2147484 * 1000))%Q by done. lra. }
    assert (Ev : (Timing.heartbeat_interval c == inject_Z (k * 1000))%Q).
    { rewrite Ek'. apply mul_Z; lia. }
    split; [exact Ev|].
    rewrite Ep. unfold JS.Math_floor. by rewrite (Qfloor_comp _ _ Ev), Qfloor_Z.
Qed.

Lemma X29_heartbeat_period_floors_interval_witness :
  (Timing.heartbeat_period defaults == 25000)%Q
  /\ (Timing.heartbeat_interval defaults == 25000)%Q.
Proof.
  destruct (X29_heartbeat_period_floors_interval defaults) as (_ & _ & H).
  - by vm_compute.
  - by vm_compute.
  - destruct (H 25%Z) as (Hi & Hp).
    + reflexivity.
    + split; [exact Hp | exact Hi].
Defined.
